(** * The gRPC handler of graphql-mesh: schema derivation and binding

    A shallow embedding of [packages/handlers/grpc/src/index.ts].  The
    handler walks the JSON mirror of a protobuf description tree and
    registers, in a graphql-compose [SchemaComposer], one enum type per
    enum, an input and an output type per message, and one root field per
    service method (plus a [ping] field per service).

    Strings are byte strings; identifiers of a protobuf description are
    ASCII, and the case functions below act on ASCII letters only. *)

From Stdlib Require Import Ascii String.
From stdpp Require Import strings gmap list.

Set Warnings "-register-all".

(** ** JavaScript strings *)

Definition is_upper (c : ascii) : bool :=
  let n := nat_of_ascii c in (65 <=? n) && (n <=? 90).

Definition is_lower (c : ascii) : bool :=
  let n := nat_of_ascii c in (97 <=? n) && (n <=? 122).

Definition is_digit (c : ascii) : bool :=
  let n := nat_of_ascii c in (48 <=? n) && (n <=? 57).

Definition is_alnum (c : ascii) : bool := is_upper c || is_lower c || is_digit c.

Definition lower_char (c : ascii) : ascii :=
  if is_upper c then ascii_of_nat (nat_of_ascii c + 32) else c.

Definition upper_char (c : ascii) : ascii :=
  if is_lower c then ascii_of_nat (nat_of_ascii c - 32) else c.

(** [s.toLowerCase()]. *)
Fixpoint toLowerCase (s : string) : string :=
  match s with
  | EmptyString => EmptyString
  | String c s' => String (lower_char c) (toLowerCase s')
  end.

(** [s.startsWith(p)]. *)
Fixpoint startsWith (s p : string) : bool :=
  match p, s with
  | EmptyString, _ => true
  | String _ _, EmptyString => false
  | String a p', String b s' => Ascii.eqb a b && startsWith s' p'
  end.

Fixpoint drop_chars (n : nat) (s : string) : string :=
  match n, s with
  | O, _ => s
  | S _, EmptyString => EmptyString
  | S n', String _ s' => drop_chars n' s'
  end.

(** [s.replace(pattern, replacement)] with a string pattern: only the
    first occurrence is replaced, wherever it starts. *)
Fixpoint replace (s pattern replacement : string) : string :=
  if startsWith s pattern
  then replacement +:+ drop_chars (String.length pattern) s
  else match s with
       | EmptyString => EmptyString
       | String c s' => String c (replace s' pattern replacement)
       end.

(** [s.includes(p)]. *)
Fixpoint includes (s p : string) : bool :=
  startsWith s p ||
  match s with
  | EmptyString => false
  | String _ s' => includes s' p
  end.

(** [s.split(sep)] for a one-character separator, and [l.join(sep)]. *)
Fixpoint split (sep : ascii) (s : string) : list string :=
  match s with
  | EmptyString => [EmptyString]
  | String c s' =>
      if Ascii.eqb c sep then EmptyString :: split sep s'
      else match split sep s' with
           | [] => [String c EmptyString]
           | w :: ws => String c w :: ws
           end
  end.

Fixpoint join (sep : string) (l : list string) : string :=
  match l with
  | [] => EmptyString
  | [w] => w
  | w :: ws => w +:+ sep +:+ join sep ws
  end.

(** ** The case-conversion packages

    [camelCase] and [pascalCase] are imported from the npm packages
    [camel-case] and [pascal-case].  The handler is written against their
    interface, and so is the development; [change_case] below is used
    where a name has to be computed. *)

Class CaseLibrary := {
  pascalCase : string -> string;
  camelCase : string -> string
}.

Module NoCase.

Definition NUL : ascii := "000"%char.

(** [input.replace(/([a-z0-9])([A-Z])/g, "$1\0$2")]. *)
Fixpoint split_lower_upper (s : string) : string :=
  match s with
  | EmptyString => EmptyString
  | String a s' =>
      match s' with
      | String b s'' =>
          if (is_lower a || is_digit a) && is_upper b
          then String a (String NUL (String b (split_lower_upper s'')))
          else String a (split_lower_upper s')
      | EmptyString => String a EmptyString
      end
  end.

(** [input.replace(/([A-Z])([A-Z][a-z])/g, "$1\0$2")]. *)
Fixpoint split_upper_word (s : string) : string :=
  match s with
  | EmptyString => EmptyString
  | String a s' =>
      match s' with
      | String b (String c s''') =>
          if is_upper a && is_upper b && is_lower c
          then String a (String NUL (String b (String c (split_upper_word s'''))))
          else String a (split_upper_word s')
      | _ => String a (split_upper_word s')
      end
  end.

(** [input.replace(/[^A-Z0-9]+/gi, "\0")]: every maximal run of
    characters that are not ASCII letters or digits becomes one NUL. *)
Fixpoint strip (in_run : bool) (s : string) : string :=
  match s with
  | EmptyString => EmptyString
  | String c s' =>
      if is_alnum c then String c (strip false s')
      else if in_run then strip true s'
      else String NUL (strip true s')
  end.

(** The two [while] loops that trim NUL from both ends. *)
Fixpoint trim_start (s : string) : string :=
  match s with
  | String c s' => if Ascii.eqb c NUL then trim_start s' else s
  | EmptyString => EmptyString
  end.

Fixpoint trim_end (s : string) : string :=
  match s with
  | EmptyString => EmptyString
  | String c s' =>
      match trim_end s' with
      | EmptyString => if Ascii.eqb c NUL then EmptyString else String c EmptyString
      | t => String c t
      end
  end.

Fixpoint mapi {A B} (f : A -> nat -> B) (i : nat) (l : list A) : list B :=
  match l with
  | [] => []
  | x :: l' => f x i :: mapi f (S i) l'
  end.

(** [noCase(input, { delimiter: "", transform })]. *)
Definition noCase (transform : string -> nat -> string) (input : string) : string :=
  let result := strip false (split_upper_word (split_lower_upper input)) in
  join "" (mapi transform 0 (split NUL (trim_end (trim_start result)))).

Definition pascalCaseTransform (input : string) (index : nat) : string :=
  match input with
  | EmptyString => EmptyString
  | String firstChar rest =>
      let lowerChars := toLowerCase rest in
      if (0 <? index) && is_digit firstChar
      then String "_" (String firstChar lowerChars)
      else String (upper_char firstChar) lowerChars
  end.

Definition camelCaseTransform (input : string) (index : nat) : string :=
  match index with
  | O => toLowerCase input
  | _ => pascalCaseTransform input index
  end.

End NoCase.

(** Modelled from the spec: [pascalCase] and [camelCase] belong to the npm
    packages [pascal-case] and [camel-case], which are not among the
    sources.  The spec names the two conventions, upper and lower camel
    case (sections 4.1 and 4.2); the details are those of the packages'
    3.x and 4.x releases on ASCII input: [noCase] cuts the input into words
    at case changes and at characters that are neither letters nor digits,
    and the transforms capitalise every word (every word but the first, for
    [camelCase]) and lower-case the rest of it. *)
Definition change_case : CaseLibrary := {|
  pascalCase := NoCase.noCase NoCase.pascalCaseTransform;
  camelCase := NoCase.noCase NoCase.camelCaseTransform
|}.

(** ** Values

    [SCALARS] is an object literal, so its prototype is [Object.prototype];
    [key in SCALARS] and [SCALARS[key]] look through the prototype chain. *)

Inductive JsValue :=
  | JsUndefined
  | JsString (s : string)
  | JsInherited (key : string).  (* a member of [Object.prototype] *)

Definition SCALARS : list (string * string) :=
  [ ("int32", "Int");
    ("int64", "BigInt");
    ("float", "Float");
    ("double", "Float");
    ("string", "String");
    ("bool", "Boolean") ].

Definition Object_prototype : list string :=
  [ "constructor"; "__defineGetter__"; "__defineSetter__"; "hasOwnProperty";
    "__lookupGetter__"; "__lookupSetter__"; "isPrototypeOf";
    "propertyIsEnumerable"; "toString"; "valueOf"; "__proto__";
    "toLocaleString" ].

Fixpoint own_property (o : list (string * string)) (key : string) : option string :=
  match o with
  | [] => None
  | (k, v) :: o' => if String.eqb k key then Some v else own_property o' key
  end.

Definition inherited (key : string) : bool :=
  existsb (String.eqb key) Object_prototype.

(** [key in o]. *)
Definition has_property (o : list (string * string)) (key : string) : bool :=
  match own_property o key with
  | Some _ => true
  | None => inherited key
  end.

(** [o[key]]. *)
Definition get_property (o : list (string * string)) (key : string) : JsValue :=
  match own_property o key with
  | Some v => JsString v
  | None => if inherited key then JsInherited key else JsUndefined
  end.

(** What a template literal prints for a value. *)
Definition to_string (v : JsValue) : string :=
  match v with
  | JsUndefined => "undefined"
  | JsString s => s
  | JsInherited key =>
      if String.eqb key "__proto__" then "[object Object]"
      else "function " +:+ (if String.eqb key "constructor" then "Object" else key)
           +:+ "() { [native code] }"
  end.

(** Plain data handed to and returned by resolvers. *)
Inductive JsData :=
  | DataUndefined
  | DataString (s : string)
  | DataObject (props : list (string * JsData)).

Fixpoint data_prop (props : list (string * JsData)) (key : string) : JsData :=
  match props with
  | [] => DataUndefined
  | (k, v) :: props' => if String.eqb k key then v else data_prop props' key
  end.

(** [args.input] *)
Definition args_input (args : JsData) : JsData :=
  match args with
  | DataObject props => data_prop props "input"
  | _ => DataUndefined
  end.

(** ** The description tree ([AnyNestedObject])

    The JSON mirror of the tree is untagged: a node is told apart by the
    attribute it carries.  A key that is absent is [None]. *)

Record Field := { type : string; rule : option string }.

Record Method := {
  requestType : string;
  responseType : string;
  responseStream : bool
}.

Inductive AnyNestedObject :=
  NestedObject (values : option (list (string * Z)))
               (fields : option (list (string * Field)))
               (methods : option (list (string * Method)))
               (nested : option (list (string * AnyNestedObject))).

(** ** Configuration *)

Inductive IncludeDirs :=
  | DirsArray (dirs : list string)
  | DirsString (s : string).       (* a scalar where a list was expected *)

Record LoadOptions := { includeDirs : option IncludeDirs }.

Inductive ProtoFilePath :=
  | PathString (path : string)
  | PathObject (file : option string) (load : option LoadOptions).

Record Config := {
  packageName : string;
  serviceName : string;
  endpoint : string;
  protoFilePath : ProtoFilePath;
  requestTimeout : option Z
}.

(** ** The schema composer *)

Inductive RootKind := Query | Mutation | Subscription.

Record Client := { client_path : string; client_endpoint : string }.

(** The closures the handler attaches to fields, by what they capture. *)
Inductive Resolver :=
  | ResolveUnary (client : Client) (methodName : string)
      (* (_, args) => clientMethod(args.input) *)
  | ResolvePayload
      (* (payload) => payload *)
  | ResolveOnline.
      (* () => ({ status: 'online' }) *)

Inductive Subscriber :=
  | SubscribeStream (client : Client) (methodName : string).
      (* (__, args) => clientMethod(args.input) *)

(** A field type is a literal name or a thunk over [getTypeName]. *)
Inductive FieldType :=
  | TypeName (name : string)
  | TypeThunk (typePath : string) (isInput : bool) (repeated : bool).

Record ArgConfig := { arg_type : FieldType; arg_defaultValue : JsData }.

Record FieldConfig := {
  field_type : FieldType;
  field_args : list (string * ArgConfig);
  field_subscribe : option Subscriber;
  field_resolve : option Resolver
}.

Inductive TypeComposer :=
  | ScalarTC
  | ObjectTC (fields : list (string * FieldType))
  | InputTC (fields : list (string * FieldType))
  | EnumTC (values : list (string * string)).

Record SchemaComposer := {
  sc_types : gmap string TypeComposer;
  sc_Query : gmap string FieldConfig;
  sc_Mutation : gmap string FieldConfig;
  sc_Subscription : gmap string FieldConfig
}.

Definition isEnumType (schemaComposer : SchemaComposer) (name : string) : bool :=
  match sc_types schemaComposer !! name with
  | Some (EnumTC _) => true
  | _ => false
  end.

Definition root_fields (schemaComposer : SchemaComposer) (root : RootKind)
  : gmap string FieldConfig :=
  match root with
  | Query => sc_Query schemaComposer
  | Mutation => sc_Mutation schemaComposer
  | Subscription => sc_Subscription schemaComposer
  end.

(** The calls the visitor makes on the composer. *)
Inductive Registration :=
  | createEnumTC (name : string) (values : list (string * string))
  | createInputTC (name : string) (fields : list (string * FieldType))
  | createObjectTC (name : string) (fields : list (string * FieldType))
  | addFields (root : RootKind) (fieldName : string) (fieldConfig : FieldConfig).

Definition add_type (name : string) (tc : TypeComposer) (sc : SchemaComposer)
  : SchemaComposer :=
  {| sc_types := <[name := tc]> (sc_types sc);
     sc_Query := sc_Query sc;
     sc_Mutation := sc_Mutation sc;
     sc_Subscription := sc_Subscription sc |}.

Definition register (r : Registration) (sc : SchemaComposer) : SchemaComposer :=
  match r with
  | createEnumTC name values => add_type name (EnumTC values) sc
  | createInputTC name fields => add_type name (InputTC fields) sc
  | createObjectTC name fields => add_type name (ObjectTC fields) sc
  | addFields Query f cfg =>
      {| sc_types := sc_types sc;
         sc_Query := <[f := cfg]> (sc_Query sc);
         sc_Mutation := sc_Mutation sc;
         sc_Subscription := sc_Subscription sc |}
  | addFields Mutation f cfg =>
      {| sc_types := sc_types sc;
         sc_Query := sc_Query sc;
         sc_Mutation := <[f := cfg]> (sc_Mutation sc);
         sc_Subscription := sc_Subscription sc |}
  | addFields Subscription f cfg =>
      {| sc_types := sc_types sc;
         sc_Query := sc_Query sc;
         sc_Mutation := sc_Mutation sc;
         sc_Subscription := <[f := cfg]> (sc_Subscription sc) |}
  end.

Definition register_all (rs : list Registration) (sc : SchemaComposer) : SchemaComposer :=
  foldl (fun sc r => register r sc) sc rs.

(** ** Outcomes *)

(** [Error message] is an error the handler raises itself; [TypeError e]
    is raised by the engine when evaluating the expression [e] on
    [undefined]. *)
Inductive JsError :=
  | Error (message : string)
  | TypeError (expression : string).

Inductive Completion (A : Type) :=
  | Normal (a : A)
  | Throw (e : JsError).
Arguments Normal {A} a.
Arguments Throw {A} e.

(** What a visit has registered when it returns its promise ([immediate]),
    and what it registers when it resumes after its [await] ([deferred]).
    An [async] function runs synchronously up to its first [await] and
    resumes only once the synchronous code that called it has finished, and
    the traversal calls every [visit] from such code: every deferred
    registration of a traversal comes after every immediate one. *)
Record Visited := {
  immediate : list Registration;
  deferred : list Registration
}.

Definition nothing : Visited := {| immediate := []; deferred := [] |}.

Definition both (a b : Visited) : Visited :=
  {| immediate := immediate a ++ immediate b;
     deferred := deferred a ++ deferred b |}.

(** The result of calling a resolver or a subscriber. *)
Inductive Effect :=
  | Return (value : JsData)
  | UnaryCall (client : Client) (methodName : string) (input : JsData)
  | StreamCall (client : Client) (methodName : string) (input : JsData).

Definition call_resolve (r : Resolver) (source args : JsData) : Effect :=
  match r with
  | ResolveUnary client methodName => UnaryCall client methodName (args_input args)
  | ResolvePayload => Return source
  | ResolveOnline => Return (DataObject [("status", DataString "online")])
  end.

Definition call_subscribe (s : Subscriber) (source args : JsData) : Effect :=
  match s with
  | SubscribeStream client methodName => StreamCall client methodName (args_input args)
  end.

(** ** The handler *)

Section Handler.

Context `{CaseLibrary}.

Section Closure.

(** What [getTypeName] and [visit] close over.  [grpcObject path] tells
    whether [get(grpcObject, path)] is a client constructor. *)
Variable config : Config.
Variable grpcObject : string -> bool.

Definition baseTypeName (typePath : string) : string :=
  pascalCase (join "_" (split "." (replace typePath (packageName config +:+ ".") ""))).

Definition getTypeName (schemaComposer : SchemaComposer)
    (typePath : string) (isInput : bool) : JsValue :=
  if has_property SCALARS typePath then get_property SCALARS typePath
  else
    let baseTypeName := baseTypeName typePath in
    if isInput && negb (isEnumType schemaComposer baseTypeName)
    then JsString (baseTypeName +:+ "Input")
    else JsString baseTypeName.

(** Forcing a field type, as the composer does when the schema is built. *)
Definition resolve_type (schemaComposer : SchemaComposer) (t : FieldType) : JsValue :=
  match t with
  | TypeName name => JsString name
  | TypeThunk typePath isInput repeated =>
      let typeName := getTypeName schemaComposer typePath isInput in
      if repeated then JsString ("[" +:+ to_string typeName +:+ "]") else typeName
  end.

Definition qualifiedTypeName (name currentPath : string) : string :=
  if negb (String.eqb currentPath (packageName config))
  then pascalCase (join "_" (split "." currentPath) +:+ "_" +:+ name)
  else name.

Definition qualify (name currentPath rootFieldName : string) : string :=
  let rootFieldName :=
    if negb (String.eqb name (serviceName config))
    then camelCase (name +:+ "_" +:+ rootFieldName)
    else rootFieldName in
  if negb (String.eqb currentPath (packageName config))
  then camelCase (join "_" (split "." currentPath) +:+ "_" +:+ rootFieldName)
  else rootFieldName.

Definition rootFieldName (name currentPath methodName : string) : string :=
  qualify name currentPath methodName.

Definition rootPingFieldName (name currentPath : string) : string :=
  qualify name currentPath "ping".

Definition is_repeated (rule : option string) : bool :=
  match rule with
  | Some r => String.eqb r "repeated"
  | None => false
  end.

Definition message_fields (isInput : bool) (fields : list (string * Field))
  : list (string * FieldType) :=
  map (fun '(fieldName, f) => (fieldName, TypeThunk (type f) isInput (is_repeated (rule f))))
      fields.

Definition fieldConfig (method : Method) : FieldConfig :=
  {| field_type := TypeThunk (responseType method) false false;
     field_args := [("input", {| arg_type := TypeThunk (requestType method) true false;
                                 arg_defaultValue := DataObject [] |})];
     field_subscribe := None;
     field_resolve := None |}.

(** The body of the callback mapped over [Object.keys(methods)]. *)
Definition visit_method (client : Client) (name currentPath : string)
    (m : string * Method) : Registration :=
  let '(methodName, method) := m in
  let rootFieldName := rootFieldName name currentPath methodName in
  let fieldConfig := fieldConfig method in
  if responseStream method
  then addFields Subscription rootFieldName
         {| field_type := field_type fieldConfig;
            field_args := field_args fieldConfig;
            field_subscribe := Some (SubscribeStream client methodName);
            field_resolve := Some ResolvePayload |}
  else
    let identifier := toLowerCase methodName in
    let rootTC := if startsWith identifier "get" then Query else Mutation in
    addFields rootTC rootFieldName
      {| field_type := field_type fieldConfig;
         field_args := field_args fieldConfig;
         field_subscribe := None;
         field_resolve := Some (ResolveUnary client methodName) |}.

Definition pingField : FieldConfig :=
  {| field_type := TypeName "ServerStatus";
     field_args := [];
     field_subscribe := None;
     field_resolve := Some ResolveOnline |}.

Fixpoint visit (nested : AnyNestedObject) (name currentPath : string)
  : Completion Visited :=
  match nested with
  | NestedObject (Some values) _ _ _ =>
      Normal {| immediate :=
                  [createEnumTC (qualifiedTypeName name currentPath)
                                (map (fun '(key, _) => (key, key)) values)];
                deferred := [] |}
  | NestedObject None (Some fields) _ _ =>
      let typeName := qualifiedTypeName name currentPath in
      Normal {| immediate :=
                  [createInputTC (typeName +:+ "Input") (message_fields true fields);
                   createObjectTC typeName (message_fields false fields)];
                deferred := [] |}
  | NestedObject None None (Some methods) _ =>
      if grpcObject (currentPath +:+ "." +:+ name)
      then
        let client := {| client_path := currentPath +:+ "." +:+ name;
                         client_endpoint := endpoint config |} in
        Normal {| immediate := map (visit_method client name currentPath) methods;
                  deferred := [addFields Query (rootPingFieldName name currentPath)
                                         pingField] |}
      else Throw (TypeError "new ServiceClient")
  | NestedObject None None None (Some children) =>
      (fix visit_all (children : list (string * AnyNestedObject)) : Completion Visited :=
         match children with
         | [] => Normal nothing
         | (key, currentNested) :: rest =>
             match visit currentNested key
                     (if String.eqb currentPath "" then name
                      else currentPath +:+ "." +:+ name) with
             | Throw e => Throw e
             | Normal v =>
                 match visit_all rest with
                 | Throw e => Throw e
                 | Normal vs => Normal (both v vs)
                 end
             end
         end) children
  | NestedObject None None None None => Normal nothing
  end.

End Closure.

(** ** [getMeshSource] *)

(** The composer before the traversal: [GraphQLBigInt] and [ServerStatus]. *)
Definition new_SchemaComposer : SchemaComposer :=
  {| sc_types := <["ServerStatus" := ObjectTC [("status", TypeName "String")]]>
                   (<["BigInt" := ScalarTC]> ∅);
     sc_Query := ∅;
     sc_Mutation := ∅;
     sc_Subscription := ∅ |}.

(** The arguments of [root.load], and the include directories when
    [addIncludePathResolver] was installed. *)
Record LoadCall := {
  load_fileName : ProtoFilePath;
  load_options : LoadOptions;
  load_includePaths : option (list string)
}.

Definition load_call (config : Config) : Completion LoadCall :=
  let fileName := protoFilePath config in
  let options := {| includeDirs := None |} in
  match protoFilePath config with
  | PathObject (Some file) load =>
      if String.eqb file "" then
        Normal {| load_fileName := fileName; load_options := options;
                  load_includePaths := None |}
      else
        match load with
        | None => Throw (TypeError "options.includeDirs")
        | Some options =>
            match includeDirs options with
            | Some (DirsArray dirs) =>
                Normal {| load_fileName := PathString file; load_options := options;
                          load_includePaths := Some dirs |}
            | Some (DirsString s) =>
                if String.eqb s "" then
                  Normal {| load_fileName := PathString file; load_options := options;
                            load_includePaths := None |}
                else Throw (Error "The includeDirs option must be an array")
            | None =>
                Normal {| load_fileName := PathString file; load_options := options;
                          load_includePaths := None |}
            end
        end
  | _ =>
      Normal {| load_fileName := fileName; load_options := options;
                load_includePaths := None |}
  end.

(** What the protobuf loader and [loadObject] hand back. *)
Record Loaded := {
  rootNested : AnyNestedObject;
  loaded_grpcObject : string -> bool
}.

Definition with_requestTimeout (config : Config) : Config :=
  {| packageName := packageName config;
     serviceName := serviceName config;
     endpoint := endpoint config;
     protoFilePath := protoFilePath config;
     requestTimeout :=
       match requestTimeout config with
       | Some t => if Z.eqb t 0 then Some 200000%Z else Some t
       | None => Some 200000%Z
       end |}.

Definition getMeshSource (root_load : LoadCall -> Completion Loaded)
    (config : option Config) : Completion SchemaComposer :=
  match config with
  | None => Throw (Error "Config not specified!")
  | Some config =>
      let config := with_requestTimeout config in
      match load_call config with
      | Throw e => Throw e
      | Normal call =>
          match root_load call with
          | Throw e => Throw e
          | Normal loaded =>
              match visit config (loaded_grpcObject loaded) (rootNested loaded) "" "" with
              | Throw e => Throw e
              | Normal v =>
                  Normal (register_all (immediate v ++ deferred v) new_SchemaComposer)
              end
          end
      end
  end.

End Handler.

(** ** Streaming calls *)

Module Stream.

Inductive Phase := Streaming | Cancelled | Errored | Completed.

(** The sequence a subscription reads: the messages delivered to its
    consumer so far, and how often [cancel] was called on the response
    stream. *)
Record Sequence := {
  phase : Phase;
  delivered : list JsData;
  cancel_calls : nat
}.

Inductive Event :=
  | Message (m : JsData)     (* the stream emits a message *)
  | End                      (* the stream ends *)
  | Failure                  (* the stream fails *)
  | Cancel.                  (* the consumer cancels *)

(** [responseStream.cancel()] *)
Definition cancel (s : Sequence) : Sequence :=
  {| phase := phase s; delivered := delivered s; cancel_calls := S (cancel_calls s) |}.

(** Modelled from the spec: [withCancel] is imported from
    [@graphql-mesh/utils], which is not among the sources.  Section 4.5
    describes the cancellable sequence it returns: it yields each message
    the stream emits, in delivery order, ends when the stream ends or
    fails, and on cancellation runs the callback it was given, after which
    no further elements are delivered; cancellation is idempotent
    (section 5). *)
Definition withCancel (onCancel : Sequence -> Sequence)
    (s : Sequence) (e : Event) : Sequence :=
  match phase s, e with
  | Streaming, Message m =>
      {| phase := Streaming; delivered := delivered s ++ [m];
         cancel_calls := cancel_calls s |}
  | Streaming, End =>
      {| phase := Completed; delivered := delivered s; cancel_calls := cancel_calls s |}
  | Streaming, Failure =>
      {| phase := Errored; delivered := delivered s; cancel_calls := cancel_calls s |}
  | Streaming, Cancel =>
      let s' := onCancel s in
      {| phase := Cancelled; delivered := delivered s'; cancel_calls := cancel_calls s' |}
  | _, _ => s
  end.

(** [withCancel(responseStream, () => responseStream.cancel())] *)
Definition clientMethod_step : Sequence -> Event -> Sequence :=
  withCancel (fun responseStream => cancel responseStream).

(** [client[methodName](input)] starts the stream at once. *)
Definition clientMethod : Sequence :=
  {| phase := Streaming; delivered := []; cancel_calls := 0 |}.

Definition run (s : Sequence) (events : list Event) : Sequence :=
  foldl clientMethod_step s events.

End Stream.

(** ** Example descriptions *)

Module Acme.

Definition config : Config :=
  {| packageName := "com.acme";
     serviceName := "Greeter";
     endpoint := "localhost:50051";
     protoFilePath := PathString "greeter.proto";
     requestTimeout := None |}.

Definition message (fields : list (string * Field)) : AnyNestedObject :=
  NestedObject None (Some fields) None None.

Definition service (methods : list (string * Method)) : AnyNestedObject :=
  NestedObject None None (Some methods) None.

Definition namespace (children : list (string * AnyNestedObject)) : AnyNestedObject :=
  NestedObject None None None (Some children).

Definition SayHello : Method :=
  {| requestType := "HelloRequest"; responseType := "HelloReply";
     responseStream := false |}.

Definition GetStatus : Method :=
  {| requestType := "StatusRequest"; responseType := "StatusReply";
     responseStream := false |}.

Definition Watch : Method :=
  {| requestType := "WatchRequest"; responseType := "Event";
     responseStream := true |}.

Definition Greeter_methods : list (string * Method) :=
  [("SayHello", SayHello); ("GetStatus", GetStatus); ("Watch", Watch)].

Definition Greeter : AnyNestedObject := service Greeter_methods.

Definition Greeter2 : AnyNestedObject := service [("SayHello", SayHello)].

Definition root : AnyNestedObject :=
  namespace
    [("com", namespace
       [("acme", namespace
          [("HelloRequest", message [("name", {| type := "string"; rule := None |})]);
           ("HelloReply", message [("message", {| type := "string"; rule := None |})]);
           ("StatusRequest", message []);
           ("StatusReply", message [("online", {| type := "bool"; rule := None |})]);
           ("WatchRequest",
            message [("topics", {| type := "string"; rule := Some "repeated" |})]);
           ("Event", message [("id", {| type := "int64"; rule := None |})]);
           ("Greeter", Greeter);
           ("v2", namespace [("Greeter2", Greeter2)])])])].

Definition grpcObject (path : string) : bool :=
  String.eqb path "com.acme.Greeter" || String.eqb path "com.acme.v2.Greeter2".

Definition root_load (call : LoadCall) : Completion Loaded :=
  Normal {| rootNested := root; loaded_grpcObject := grpcObject |}.

Definition Greeter_client : Client :=
  {| client_path := "com.acme.Greeter"; client_endpoint := "localhost:50051" |}.

(** A description whose root package holds a message [UserID] and a
    message [User] with a field of that type. *)
Definition UserID : AnyNestedObject :=
  message [("value", {| type := "string"; rule := None |})].

Definition User : AnyNestedObject :=
  message [("id", {| type := "UserID"; rule := None |})].

Definition users_root : AnyNestedObject :=
  namespace [("com", namespace [("acme", namespace [("UserID", UserID); ("User", User)])])].

Definition users_load (call : LoadCall) : Completion Loaded :=
  Normal {| rootNested := users_root; loaded_grpcObject := grpcObject |}.

(** [protoFilePath: { file: "greeter.proto" }] *)
Definition config_without_load : Config :=
  {| packageName := "com.acme";
     serviceName := "Greeter";
     endpoint := "localhost:50051";
     protoFilePath := PathObject (Some "greeter.proto") None;
     requestTimeout := None |}.

(** [protoFilePath: { file: "" }] *)
Definition config_empty_file : Config :=
  {| packageName := "com.acme";
     serviceName := "Greeter";
     endpoint := "localhost:50051";
     protoFilePath := PathObject (Some "") None;
     requestTimeout := None |}.

End Acme.

(** A root package whose name is also a segment of another package. *)
Module Api.

Definition config : Config :=
  {| packageName := "api";
     serviceName := "Gateway";
     endpoint := "localhost:50051";
     protoFilePath := PathString "gateway.proto";
     requestTimeout := None |}.

Definition HttpBody : AnyNestedObject :=
  Acme.message [("content_type", {| type := "string"; rule := None |})].

Definition Upload : AnyNestedObject :=
  Acme.message [("body", {| type := "google.api.HttpBody"; rule := None |})].

Definition root : AnyNestedObject :=
  Acme.namespace
    [("google", Acme.namespace [("api", Acme.namespace [("HttpBody", HttpBody)])]);
     ("api", Acme.namespace [("Upload", Upload)])].

Definition root_load (call : LoadCall) : Completion Loaded :=
  Normal {| rootNested := root; loaded_grpcObject := fun _ => false |}.

End Api.

(** ** Include directories

    [addIncludePathResolver] replaces [root.resolvePath].  The functions of
    the [path] and [fs] modules it calls belong to the platform: [isAbsolute]
    and [join] of [path], and [accessSync(p, constants.R_OK)], which returns
    when [p] can be read and throws otherwise. *)

Record Platform := {
  isAbsolute : string -> bool;
  path_join : string -> string -> string;
  accessSync : string -> bool
}.

(** A [resolvePath]: the path it returns ([None] for [null]) and the lines it
    writes with [console.warn]. *)
Definition ResolvePath : Type := string -> string -> option string * list string.

(** The [for] loop over the include paths. *)
Fixpoint include_lookup (platform : Platform) (includePaths : list string)
    (target : string) : option string :=
  match includePaths with
  | [] => None
  | directory :: rest =>
      let fullPath := path_join platform directory target in
      if accessSync platform fullPath then Some fullPath
      else include_lookup platform rest target
  end.

Definition not_found (target : string) (includePaths : list string) : string :=
  target +:+ " not found in any of the include paths " +:+ join "," includePaths.

(** The function [addIncludePathResolver(root, includePaths)] stores in
    [root.resolvePath], given the one it finds there. *)
Definition addIncludePathResolver (platform : Platform)
    (originalResolvePath : ResolvePath) (includePaths : list string) : ResolvePath :=
  fun origin target =>
    if isAbsolute platform target then (Some target, [])
    else
      match include_lookup platform includePaths target with
      | Some fullPath => (Some fullPath, [])
      | None =>
          let '(path, warnings) := originalResolvePath origin target in
          match path with
          | None => (path, warnings ++ [not_found target includePaths])
          | Some _ => (path, warnings)
          end
      end.

(** A platform with one readable file, and a loader's own [resolvePath]
    that finds nothing. *)
Module Includes.

Definition platform : Platform :=
  {| isAbsolute := fun p => startsWith p "/";
     path_join := fun directory target => directory +:+ "/" +:+ target;
     accessSync := fun p => String.eqb p "vendor/google/type/date.proto" |}.

Definition originalResolvePath : ResolvePath := fun origin target => (None, []).

Definition includePaths : list string := ["protos"; "vendor"; "third_party"].

End Includes.

(** ** Vocabulary of the specification *)


(** Whether a client constructor is found for a service, given its name and
    the path it is visited under. *)
Definition has_client (grpcObject : string -> bool) (service : string * string) : bool :=
  grpcObject (service.2 +:+ "." +:+ service.1).

(** Every dot replaced by an underscore. *)
Fixpoint dots_to_underscores (s : string) : string :=
  match s with
  | EmptyString => EmptyString
  | String c s' =>
      String (if Ascii.eqb c "." then "_"%char else c) (dots_to_underscores s')
  end.


(** A name that starts, case-insensitively, with "get". *)
Definition starts_with_get (methodName : string) : Prop :=
  exists g e t rest,
    methodName = String g (String e (String t rest)) /\
    (g = "g"%char \/ g = "G"%char) /\
    (e = "e"%char \/ e = "E"%char) /\
    (t = "t"%char \/ t = "T"%char).

(** The keys of the scalar table. *)
Definition scalar_keys : list string :=
  ["int32"; "int64"; "float"; "double"; "string"; "bool"].

(** The liveness-check fields among a list of registrations. *)
Definition is_ping (r : Registration) : bool :=
  match r with
  | addFields _ _ {| field_resolve := Some ResolveOnline |} => true
  | _ => false
  end.

(** The service nodes a traversal reaches, with the name and the path they
    are visited under. *)
Fixpoint services (nested : AnyNestedObject) (name currentPath : string)
  : list (string * string) :=
  match nested with
  | NestedObject None None (Some _) _ => [(name, currentPath)]
  | NestedObject None None None (Some children) =>
      (fix services_all (children : list (string * AnyNestedObject)) :=
         match children with
         | [] => []
         | (key, currentNested) :: rest =>
             services currentNested key
               (if String.eqb currentPath "" then name else currentPath +:+ "." +:+ name)
             ++ services_all rest
         end) children
  | _ => []
  end.

(** The liveness-check field of the service visited under a name and a path. *)
Definition ping_of `{CaseLibrary} (config : Config) (service : string * string)
  : Registration :=
  addFields Query (rootPingFieldName config service.1 service.2) pingField.

(** The base name section 4.1 describes: the root-package prefix is taken
    off only where it leads the reference. *)
Definition strip_leading (typePath prefix : string) : string :=
  if startsWith typePath prefix then drop_chars (String.length prefix) typePath
  else typePath.

Definition spec_baseTypeName `{CaseLibrary} (config : Config) (typePath : string) : string :=
  pascalCase (join "_" (split "." (strip_leading typePath (packageName config +:+ ".")))).

(** * Properties *)

(** ** Strings *)

Lemma lower_char_is (c x : ascii) :
  is_lower x = true ->
  Ascii.eqb x (lower_char c) = true <-> c = x \/ c = upper_char x.
Proof.
  intros Hx. rewrite Ascii.eqb_eq. split.
  - intros ->. unfold lower_char.
    destruct c as [[] [] [] [] [] [] [] []]; vm_compute; (auto || discriminate).
  - intros [-> | ->].
    + unfold lower_char.
      destruct x as [[] [] [] [] [] [] [] []]; vm_compute; (reflexivity || discriminate).
    + destruct x as [[] [] [] [] [] [] [] []]; vm_compute; (reflexivity || discriminate).
Qed.

Lemma startsWith_empty (s : string) : startsWith s "" = true.
Proof. by destruct s. Qed.

Lemma startsWith_get (methodName : string) :
  startsWith (toLowerCase methodName) "get" = true <-> starts_with_get methodName.
Proof.
  unfold starts_with_get. split.
  - destruct methodName as [|g [|e [|t rest]]]; cbn [toLowerCase startsWith];
      rewrite ?andb_false_r; try discriminate.
    rewrite startsWith_empty, andb_true_r, !andb_true_iff.
    rewrite !lower_char_is by reflexivity.
    intros (Hg & He & Ht). exists g, e, t, rest. auto.
  - intros (g & e & t & rest & -> & Hg & He & Ht). cbn [toLowerCase startsWith].
    rewrite startsWith_empty, andb_true_r, !andb_true_iff.
    rewrite !lower_char_is by reflexivity. auto.
Qed.

Lemma startsWith_get_false (methodName : string) :
  startsWith (toLowerCase methodName) "get" = false <-> ~ starts_with_get methodName.
Proof.
  rewrite <- startsWith_get. destruct (startsWith _ _); split; congruence.
Qed.

(** ** The composer *)

Lemma register_addFields (root : RootKind) (f : string) (fc : FieldConfig)
    (sc : SchemaComposer) :
  root_fields (register (addFields root f fc) sc) root !! f = Some fc.
Proof. destruct root; simpl; apply lookup_insert_eq. Qed.

Lemma register_addFields_other (root root' : RootKind) (f f' : string)
    (fc : FieldConfig) (sc : SchemaComposer) :
  root <> root' \/ f <> f' ->
  root_fields (register (addFields root f fc) sc) root' !! f' = root_fields sc root' !! f'.
Proof.
  intros Hne. destruct root, root'; simpl; try reflexivity;
    destruct Hne as [Hne | Hne]; try congruence; by apply lookup_insert_ne.
Qed.

Lemma register_addFields_types (root : RootKind) (f : string) (fc : FieldConfig)
    (sc : SchemaComposer) :
  sc_types (register (addFields root f fc) sc) = sc_types sc.
Proof. by destruct root. Qed.

Lemma register_all_app (rs rs' : list Registration) (sc : SchemaComposer) :
  register_all (rs ++ rs') sc = register_all rs' (register_all rs sc).
Proof. unfold register_all. apply foldl_app. Qed.

Section HandlerProperties.

Context `{CaseLibrary}.
Variable config : Config.
Variable grpcObject : string -> bool.

(** ** The visitor on a service node *)

Lemma visit_service (methods : list (string * Method))
    (children : option (list (string * AnyNestedObject)))
    (name currentPath : string) (v : Visited) :
  visit config grpcObject (NestedObject None None (Some methods) children)
        name currentPath = Normal v ->
  grpcObject (currentPath +:+ "." +:+ name) = true /\
  immediate v =
    map (visit_method config
           {| client_path := currentPath +:+ "." +:+ name;
              client_endpoint := endpoint config |} name currentPath) methods /\
  deferred v = [addFields Query (rootPingFieldName config name currentPath) pingField].
Proof.
  simpl. destruct (grpcObject _); [|discriminate].
  intros [= <-]. auto.
Qed.

Lemma visit_method_not_ping (client : Client) (name currentPath : string)
    (m : string * Method) :
  is_ping (visit_method config client name currentPath m) = false.
Proof.
  destruct m as [methodName method]. unfold visit_method.
  destruct (responseStream method); [reflexivity|].
  destruct (startsWith _ _); reflexivity.
Qed.

End HandlerProperties.

(** ** Root fields of service methods *)

Section ServiceFields.

Context `{CaseLibrary}.
Variable config : Config.
Variable grpcObject : string -> bool.

(** C1: every method of a visited service yields one root field: under
    Query when it is not streaming and its name starts, whatever the case,
    with "get"; under Mutation when it is not streaming and does not; under
    Subscription when it streams, with a subscribe function that starts the
    stream and a separate resolve function that returns the payload as it
    is. *)
Theorem C1_method_root (methods : list (string * Method))
    (children : option (list (string * AnyNestedObject)))
    (name currentPath : string) (v : Visited) (methodName : string) (method : Method) :
  visit config grpcObject (NestedObject None None (Some methods) children)
        name currentPath = Normal v ->
  In (methodName, method) methods ->
  let client := {| client_path := currentPath +:+ "." +:+ name;
                   client_endpoint := endpoint config |} in
  let f := rootFieldName config name currentPath methodName in
  let r := visit_method config client name currentPath (methodName, method) in
  In r (immediate v) /\
  (responseStream method = false -> starts_with_get methodName ->
   exists fc, r = addFields Query f fc /\ field_subscribe fc = None /\
     forall sc, sc_Query (register r sc) !! f = Some fc) /\
  (responseStream method = false -> ~ starts_with_get methodName ->
   exists fc, r = addFields Mutation f fc /\ field_subscribe fc = None /\
     forall sc, sc_Mutation (register r sc) !! f = Some fc) /\
  (responseStream method = true ->
   exists fc subscribe resolve,
     r = addFields Subscription f fc /\
     (forall sc, sc_Subscription (register r sc) !! f = Some fc) /\
     field_subscribe fc = Some subscribe /\
     field_resolve fc = Some resolve /\
     (forall payload args, call_resolve resolve payload args = Return payload) /\
     (forall source args,
        call_subscribe subscribe source args
        = StreamCall client methodName (args_input args))).
Proof.
  intros Hvisit Hin client f r.
  apply visit_service in Hvisit as (_ & Himm & _).
  split.
  { rewrite Himm. apply in_map_iff. by exists (methodName, method). }
  subst r. unfold visit_method. fold f. repeat split.
  - intros -> Hget%startsWith_get. rewrite Hget.
    eexists. split; [reflexivity|]. split; [reflexivity|].
    intros sc. apply (register_addFields Query).
  - intros -> Hget%startsWith_get_false. rewrite Hget.
    eexists. split; [reflexivity|]. split; [reflexivity|].
    intros sc. apply (register_addFields Mutation).
  - intros ->. do 3 eexists. split; [reflexivity|].
    split; [intros sc; apply (register_addFields Subscription)|].
    repeat split; reflexivity.
Qed.

End ServiceFields.

Lemma C1_method_root_witness :
  visit (H := change_case) Acme.config Acme.grpcObject Acme.Greeter "Greeter" "com.acme"
  = Normal {| immediate :=
                map (visit_method (H := change_case) Acme.config Acme.Greeter_client
                       "Greeter" "com.acme") Acme.Greeter_methods;
              deferred := [addFields Query "ping" pingField] |} /\
  In ("Watch", Acme.Watch) Acme.Greeter_methods /\
  exists fc,
    visit_method (H := change_case) Acme.config Acme.Greeter_client "Greeter" "com.acme"
      ("Watch", Acme.Watch) = addFields Subscription "Watch" fc /\
    field_resolve fc = Some ResolvePayload.
Proof.
  assert (Hvisit : visit (H := change_case) Acme.config Acme.grpcObject Acme.Greeter
                     "Greeter" "com.acme"
                   = Normal {| immediate :=
                       map (visit_method (H := change_case) Acme.config Acme.Greeter_client
                              "Greeter" "com.acme") Acme.Greeter_methods;
                       deferred := [addFields Query "ping" pingField] |})
    by reflexivity.
  assert (Hin : In ("Watch", Acme.Watch) Acme.Greeter_methods)
    by (right; right; left; reflexivity).
  split; [exact Hvisit|]. split; [exact Hin|].
  destruct (C1_method_root (H := change_case) Acme.config Acme.grpcObject _ _ _ _ _ _ _
              Hvisit Hin) as (_ & _ & _ & Hstream).
  destruct (Hstream eq_refl) as (fc & subscribe & resolve & Hr & _ & _ & Hres & Hpay & _).
  exists fc. split; [exact Hr|].
  rewrite Hres. f_equal.
  destruct resolve; [| reflexivity |]; specialize (Hpay DataUndefined DataUndefined);
    discriminate.
Defined.

(** ** The type-name resolver *)

Section TypeNames.

Context `{CaseLibrary}.
Variable config : Config.

Lemma getTypeName_not_scalar (sc : SchemaComposer) (typePath : string) (isInput : bool) :
  has_property SCALARS typePath = false ->
  getTypeName config sc typePath isInput =
    JsString (if isInput && negb (isEnumType sc (baseTypeName config typePath))
              then baseTypeName config typePath +:+ "Input"
              else baseTypeName config typePath).
Proof.
  intros Hin. unfold getTypeName. rewrite Hin.
  by destruct (isInput && _).
Qed.

(** Outside the table and the prototype chain, the input name is the
    output name followed by "Input", unless the base name is an enum. *)
Lemma getTypeName_Input (sc : SchemaComposer) (typePath : string) :
  has_property SCALARS typePath = false ->
  isEnumType sc (baseTypeName config typePath) = false ->
  getTypeName config sc typePath false = JsString (baseTypeName config typePath) /\
  getTypeName config sc typePath true = JsString (baseTypeName config typePath +:+ "Input").
Proof.
  intros Hin Henum. rewrite !getTypeName_not_scalar by done.
  by rewrite Henum.
Qed.

(** An enum has one name for both contexts. *)
Lemma getTypeName_enum (sc : SchemaComposer) (typePath : string) :
  isEnumType sc (baseTypeName config typePath) = true ->
  getTypeName config sc typePath true = getTypeName config sc typePath false.
Proof.
  intros Henum. unfold getTypeName.
  destruct (has_property SCALARS typePath); [reflexivity|].
  by rewrite Henum.
Qed.

Lemma new_SchemaComposer_no_enum (name : string) :
  isEnumType new_SchemaComposer name = false.
Proof.
  unfold isEnumType, new_SchemaComposer; cbn [sc_types].
  rewrite lookup_insert. case_decide; [reflexivity|].
  rewrite lookup_insert. case_decide; [reflexivity|].
  by rewrite lookup_empty.
Qed.

(** C4: a message may be named after a member of [Object.prototype]; such
    a reference is not a key of the scalar table and its base name need not
    be an enum, yet the resolver answers with the inherited member, the same
    in both contexts, and not with a name and that name followed by
    "Input". *)
Theorem C4_inherited_member (sc : SchemaComposer) (isInput : bool) :
  own_property SCALARS "toString" = None /\
  isEnumType new_SchemaComposer (baseTypeName config "toString") = false /\
  getTypeName config sc "toString" isInput = JsInherited "toString" /\
  getTypeName config sc "toString" true = getTypeName config sc "toString" false /\
  forall name, getTypeName config sc "toString" true <> JsString (name +:+ "Input").
Proof.
  split; [reflexivity|]. split; [apply new_SchemaComposer_no_enum|].
  split; [reflexivity|]. split; [reflexivity|].
  intros name. discriminate.
Qed.

(** C5: every key of the scalar table resolves to the name the table gives
    it, in input and in output context alike, whatever the composer holds;
    [int64] resolves to [BigInt]. *)
Theorem C5_scalars (sc sc' : SchemaComposer) (typePath : string) :
  In typePath scalar_keys ->
  exists name,
    own_property SCALARS typePath = Some name /\
    getTypeName config sc typePath true = JsString name /\
    getTypeName config sc' typePath false = JsString name /\
    (typePath = "int64" -> name = "BigInt").
Proof.
  intros Hin. simpl in Hin.
  repeat destruct Hin as [<- | Hin]; try contradiction;
    eexists; (split; [reflexivity|]); repeat split; try reflexivity; discriminate.
Qed.

End TypeNames.

Lemma C5_scalars_witness :
  In "int64" scalar_keys /\
  exists name,
    own_property SCALARS "int64" = Some name /\
    getTypeName (H := change_case) Acme.config new_SchemaComposer "int64" true
      = JsString name /\
    getTypeName (H := change_case) Acme.config new_SchemaComposer "int64" false
      = JsString name /\
    ("int64" = "int64" -> name = "BigInt").
Proof.
  assert (Hin : In "int64" scalar_keys) by (right; left; reflexivity).
  split; [exact Hin|].
  exact (C5_scalars (H := change_case) Acme.config new_SchemaComposer new_SchemaComposer
           "int64" Hin).
Defined.

(** ** Stripping the root package *)

Lemma replace_leading (s pattern replacement : string) :
  startsWith s pattern = true ->
  replace s pattern replacement = replacement +:+ drop_chars (String.length pattern) s.
Proof. intros Hs. destruct s; cbn [replace]; by rewrite Hs. Qed.

Lemma replace_absent (s pattern replacement : string) :
  includes s pattern = false -> replace s pattern replacement = s.
Proof.
  induction s as [|c s IH]; cbn [replace includes].
  - rewrite orb_false_r. by intros ->.
  - intros [Hs Hincl]%orb_false_iff. rewrite Hs. f_equal. by apply IH.
Qed.

Section RootPackage.

Context `{CaseLibrary}.
Variable config : Config.

(** Where the root package leads the reference, or does not occur in it,
    the base name is the one section 4.1 describes. *)
Lemma baseTypeName_leading (typePath : string) :
  startsWith typePath (packageName config +:+ ".") = true ->
  baseTypeName config typePath = spec_baseTypeName config typePath.
Proof.
  intros Hs. unfold baseTypeName, spec_baseTypeName, strip_leading.
  by rewrite replace_leading, Hs.
Qed.

Lemma baseTypeName_absent (typePath : string) :
  includes typePath (packageName config +:+ ".") = false ->
  baseTypeName config typePath = spec_baseTypeName config typePath.
Proof.
  intros Hincl. unfold baseTypeName, spec_baseTypeName, strip_leading.
  rewrite replace_absent by done.
  destruct typePath; cbn [includes] in Hincl;
    apply orb_false_iff in Hincl as [-> _]; reflexivity.
Qed.

End RootPackage.

(** C6: with root package [api], the reference [google.api.HttpBody] does
    not start with the root-package prefix, which is still taken out of its
    middle: the base name is [GoogleHttpBody], where a leading-only strip
    gives [GoogleApiHttpBody].  The visitor registers the message under
    [GoogleApiHttpBody], so the field of [Upload] that refers to it names a
    type the schema does not have. *)
Theorem C6_prefix_inside_reference :
  startsWith "google.api.HttpBody" (packageName Api.config +:+ ".") = false /\
  baseTypeName (H := change_case) Api.config "google.api.HttpBody" = "GoogleHttpBody" /\
  spec_baseTypeName (H := change_case) Api.config "google.api.HttpBody"
    = "GoogleApiHttpBody" /\
  exists sc,
    getMeshSource (H := change_case) Api.root_load (Some Api.config) = Normal sc /\
    sc_types sc !! "Upload"
      = Some (ObjectTC [("body", TypeThunk "google.api.HttpBody" false false)]) /\
    resolve_type (H := change_case) Api.config sc
      (TypeThunk "google.api.HttpBody" false false) = JsString "GoogleHttpBody" /\
    sc_types sc !! "GoogleHttpBody" = None /\
    sc_types sc !! "GoogleApiHttpBody"
      = Some (ObjectTC [("content_type", TypeThunk "string" false false)]).
Proof.
  split; [reflexivity|]. split; [reflexivity|]. split; [reflexivity|].
  eexists. split; [reflexivity|]. vm_compute. repeat split.
Qed.

(** ** Qualified names *)

Section Qualification.

Context `{CaseLibrary}.
Variable config : Config.

Lemma qualify_primary_root (field : string) :
  qualify config (serviceName config) (packageName config) field = field.
Proof. unfold qualify. by rewrite !String.eqb_refl. Qed.

Lemma qualify_both (name currentPath field : string) :
  name <> serviceName config ->
  currentPath <> packageName config ->
  qualify config name currentPath field =
    camelCase (join "_" (split "." currentPath) +:+ "_" +:+ camelCase (name +:+ "_" +:+ field)).
Proof.
  intros Hn%String.eqb_neq Hp%String.eqb_neq. unfold qualify. by rewrite Hn, Hp.
Qed.

Lemma qualifiedTypeName_root (name : string) :
  qualifiedTypeName config name (packageName config) = name.
Proof. unfold qualifiedTypeName. by rewrite String.eqb_refl. Qed.

End Qualification.

(** C7: the field of [SayHello] in the service [Greeter2] of [com.acme.v2]
    is named by prefixing the service name and then the whole namespace
    path, each step camel-casing the underscore join; the result is
    [comAcmeV2Greeter2SayHello], and it differs from the name [SayHello] of
    the primary service's field. *)
Theorem C7_nested_service_field (config : Config) :
  packageName config = "com.acme" ->
  serviceName config = "Greeter" ->
  rootFieldName (H := change_case) config "Greeter2" "com.acme.v2" "SayHello"
    = @camelCase change_case
        ("com_acme_v2" +:+ "_" +:+ @camelCase change_case ("Greeter2" +:+ "_" +:+ "SayHello")) /\
  rootFieldName (H := change_case) config "Greeter2" "com.acme.v2" "SayHello"
    = "comAcmeV2Greeter2SayHello" /\
  rootFieldName (H := change_case) config "Greeter" "com.acme" "SayHello" = "SayHello" /\
  rootFieldName (H := change_case) config "Greeter2" "com.acme.v2" "SayHello"
    <> rootFieldName (H := change_case) config "Greeter" "com.acme" "SayHello".
Proof.
  intros Hp Hs. unfold rootFieldName, qualify. rewrite Hp, Hs.
  repeat split. discriminate.
Qed.

Lemma C7_nested_service_field_witness :
  packageName Acme.config = "com.acme" /\
  serviceName Acme.config = "Greeter" /\
  rootFieldName (H := change_case) Acme.config "Greeter2" "com.acme.v2" "SayHello"
    = "comAcmeV2Greeter2SayHello".
Proof.
  split; [reflexivity|]. split; [reflexivity|].
  exact (proj1 (proj2 (C7_nested_service_field Acme.config eq_refl eq_refl))).
Defined.

Lemma C7_counterexample :
  rootFieldName (H := change_case) Acme.config "Greeter2" "com.acme.v2" "SayHello"
    = "comAcmeV2Greeter2SayHello" /\
  String.eqb (rootFieldName (H := change_case) Acme.config "Greeter2" "com.acme.v2" "SayHello")
             "acmeV2_greeter2_sayHello" = false /\
  includes (rootFieldName (H := change_case) Acme.config "Greeter2" "com.acme.v2" "SayHello")
           "_" = false.
Proof. repeat split. Qed.

(** In the root package, an enum or a message is registered under its local
    name exactly as declared: no namespace qualification and no case
    conversion are applied, so the identifier is the upper-camel-case form
    of the name only when the name already has that form. *)
Lemma root_package_identifier `{CaseLibrary} (config : Config)
    (grpcObject : string -> bool) (name currentPath : string) :
  currentPath = packageName config ->
  (forall values fields methods children,
     visit config grpcObject (NestedObject (Some values) fields methods children)
           name currentPath
     = Normal {| immediate := [createEnumTC name (map (fun '(key, _) => (key, key)) values)];
                 deferred := [] |}) /\
  (forall fields methods children,
     visit config grpcObject (NestedObject None (Some fields) methods children)
           name currentPath
     = Normal {| immediate := [createInputTC (name +:+ "Input") (message_fields true fields);
                               createObjectTC name (message_fields false fields)];
                 deferred := [] |}) /\
  (pascalCase name = name -> qualifiedTypeName config name currentPath = pascalCase name).
Proof.
  intros ->. repeat split; intros; simpl; rewrite ?qualifiedTypeName_root; congruence.
Qed.

(** C3: the message [UserID] of the root package [com.acme] is registered
    as [UserID] and [UserIDInput], not under the upper-camel-case form
    [UserId] of its name.  The resolver does convert the case of a
    reference to it, so in the schema that is built the field [id] of
    [User] names [UserId], a type the schema does not have. *)
Theorem C3_root_name_as_declared :
  @pascalCase change_case "UserID" = "UserId" /\
  visit (H := change_case) Acme.config Acme.grpcObject Acme.UserID "UserID" "com.acme"
  = Normal {| immediate :=
                [createInputTC "UserIDInput" [("value", TypeThunk "string" true false)];
                 createObjectTC "UserID" [("value", TypeThunk "string" false false)]];
              deferred := [] |} /\
  exists sc,
    getMeshSource (H := change_case) Acme.users_load (Some Acme.config) = Normal sc /\
    sc_types sc !! "UserID"
      = Some (ObjectTC [("value", TypeThunk "string" false false)]) /\
    sc_types sc !! "UserId" = None /\
    sc_types sc !! "User" = Some (ObjectTC [("id", TypeThunk "UserID" false false)]) /\
    resolve_type (H := change_case) Acme.config sc (TypeThunk "UserID" false false)
      = JsString "UserId".
Proof.
  split; [reflexivity|]. split; [reflexivity|].
  eexists. split; [reflexivity|]. vm_compute. repeat split.
Qed.

(** C2: with root package [com.acme] and primary service [Greeter], the
    unary method [SayHello] from [HelloRequest] to [HelloReply] yields a
    field under Mutation named [SayHello], the name as declared, with the
    single argument [input] of type [HelloRequestInput] and the output
    type [HelloReply]. *)
Theorem C2_primary_unary_field (config : Config) (grpcObject : string -> bool)
    (methods : list (string * Method))
    (children : option (list (string * AnyNestedObject))) (v : Visited) :
  packageName config = "com.acme" ->
  serviceName config = "Greeter" ->
  visit (H := change_case) config grpcObject
        (NestedObject None None (Some methods) children) "Greeter" "com.acme" = Normal v ->
  In ("SayHello", Acme.SayHello) methods ->
  exists fc input,
    In (addFields Mutation "SayHello" fc) (immediate v) /\
    field_args fc = [("input", input)] /\
    forall sc, isEnumType sc "HelloRequest" = false ->
      resolve_type (H := change_case) config sc (arg_type input)
        = JsString "HelloRequestInput" /\
      resolve_type (H := change_case) config sc (field_type fc) = JsString "HelloReply".
Proof.
  intros Hp Hs Hvisit Hin.
  apply visit_service in Hvisit as (_ & Himm & _).
  do 2 eexists. split.
  { rewrite Himm. apply in_map_iff. eexists. split; [|exact Hin].
    unfold visit_method, rootFieldName, qualify. rewrite Hp, Hs. reflexivity. }
  split; [reflexivity|].
  intros sc Henum.
  assert (Hrequest : baseTypeName (H := change_case) config "HelloRequest" = "HelloRequest")
    by (unfold baseTypeName; rewrite Hp; reflexivity).
  assert (Hreply : baseTypeName (H := change_case) config "HelloReply" = "HelloReply")
    by (unfold baseTypeName; rewrite Hp; reflexivity).
  unfold resolve_type; cbn [arg_type field_type fieldConfig Acme.SayHello
                              requestType responseType].
  rewrite !getTypeName_not_scalar by reflexivity.
  rewrite Hrequest, Hreply, Henum. split; reflexivity.
Qed.

Lemma C2_primary_unary_field_witness :
  packageName Acme.config = "com.acme" /\
  serviceName Acme.config = "Greeter" /\
  In ("SayHello", Acme.SayHello) Acme.Greeter_methods /\
  exists fc input,
    In (addFields Mutation "SayHello" fc)
       (map (visit_method (H := change_case) Acme.config Acme.Greeter_client
               "Greeter" "com.acme") Acme.Greeter_methods) /\
    field_args fc = [("input", input)] /\
    forall sc, isEnumType sc "HelloRequest" = false ->
      resolve_type (H := change_case) Acme.config sc (arg_type input)
        = JsString "HelloRequestInput" /\
      resolve_type (H := change_case) Acme.config sc (field_type fc)
        = JsString "HelloReply".
Proof.
  split; [reflexivity|]. split; [reflexivity|].
  assert (Hin : In ("SayHello", Acme.SayHello) Acme.Greeter_methods)
    by (left; reflexivity).
  split; [exact Hin|].
  exact (C2_primary_unary_field Acme.config Acme.grpcObject Acme.Greeter_methods None
           _ eq_refl eq_refl eq_refl Hin).
Defined.

Lemma C2_counterexample :
  exists sc fc,
    getMeshSource (H := change_case) Acme.root_load (Some Acme.config) = Normal sc /\
    sc_Mutation sc !! "sayHello" = None /\
    sc_Query sc !! "sayHello" = None /\
    sc_Subscription sc !! "sayHello" = None /\
    sc_Mutation sc !! "SayHello" = Some fc /\
    resolve_type (H := change_case) Acme.config sc (field_type fc) = JsString "HelloReply".
Proof.
  do 2 eexists. split; [reflexivity|]. vm_compute. repeat split.
Qed.

(** ** The liveness-check field *)

Lemma register_all_snoc (rs : list Registration) (r : Registration) (sc : SchemaComposer) :
  register_all (rs ++ [r]) sc = register r (register_all rs sc).
Proof. by rewrite register_all_app. Qed.

Lemma filter_is_ping_methods `{CaseLibrary} (config : Config) (client : Client)
    (name currentPath : string) (methods : list (string * Method)) :
  List.filter is_ping (map (visit_method config client name currentPath) methods) = [].
Proof.
  induction methods as [|m methods IH]; [reflexivity|].
  cbn [map List.filter]. by rewrite visit_method_not_ping.
Qed.

(** C8: a visited service registers, besides one field per method, exactly
    one liveness-check field: it goes under Query, its name is [ping]
    qualified like a method name, its type is [ServerStatus], and its
    resolver returns [{status: "online"}] whatever it is called with. *)
Theorem C8_ping_field `{CaseLibrary} (config : Config) (grpcObject : string -> bool)
    (methods : list (string * Method))
    (children : option (list (string * AnyNestedObject)))
    (name currentPath : string) (v : Visited) :
  visit config grpcObject (NestedObject None None (Some methods) children)
        name currentPath = Normal v ->
  let ping := rootPingFieldName config name currentPath in
  length (immediate v) = length methods /\
  List.filter is_ping (immediate v ++ deferred v) = [addFields Query ping pingField] /\
  ping = rootFieldName config name currentPath "ping" /\
  field_type pingField = TypeName "ServerStatus" /\
  sc_types new_SchemaComposer !! "ServerStatus"
    = Some (ObjectTC [("status", TypeName "String")]) /\
  (exists resolve,
     field_resolve pingField = Some resolve /\
     forall source args,
       call_resolve resolve source args
       = Return (DataObject [("status", DataString "online")])) /\
  forall sc, sc_Query (register_all (immediate v ++ deferred v) sc) !! ping = Some pingField.
Proof.
  intros Hvisit ping.
  apply visit_service in Hvisit as (_ & Himm & Hdef).
  rewrite Himm, Hdef. split; [by rewrite length_map|].
  split.
  { rewrite List.filter_app, filter_is_ping_methods. reflexivity. }
  split; [reflexivity|]. split; [reflexivity|]. split; [reflexivity|].
  split; [by exists ResolveOnline|].
  intros sc. rewrite register_all_snoc. apply (register_addFields Query).
Qed.

Lemma C8_ping_field_witness :
  visit (H := change_case) Acme.config Acme.grpcObject Acme.Greeter2 "Greeter2" "com.acme.v2"
  = Normal {| immediate :=
                map (visit_method (H := change_case) Acme.config
                       {| client_path := "com.acme.v2.Greeter2";
                          client_endpoint := "localhost:50051" |}
                       "Greeter2" "com.acme.v2") [("SayHello", Acme.SayHello)];
              deferred := [addFields Query "comAcmeV2Greeter2Ping" pingField] |} /\
  List.filter is_ping
    (map (visit_method (H := change_case) Acme.config
            {| client_path := "com.acme.v2.Greeter2";
               client_endpoint := "localhost:50051" |}
            "Greeter2" "com.acme.v2") [("SayHello", Acme.SayHello)]
     ++ [addFields Query "comAcmeV2Greeter2Ping" pingField])
  = [addFields Query "comAcmeV2Greeter2Ping" pingField].
Proof.
  split; [reflexivity|].
  exact (proj1 (proj2 (C8_ping_field (H := change_case) Acme.config Acme.grpcObject
                         [("SayHello", Acme.SayHello)] None "Greeter2" "com.acme.v2"
                         _ eq_refl))).
Defined.

(** ** The whole traversal *)

Section Traversal.

Context `{CaseLibrary}.
Variable config : Config.
Variable grpcObject : string -> bool.

(** Induction over a description tree and the children of its namespaces. *)
Lemma AnyNestedObject_induction (P : AnyNestedObject -> Prop) :
  (forall values fields methods, P (NestedObject values fields methods None)) ->
  (forall values fields methods children,
     Forall (fun child => P child.2) children ->
     P (NestedObject values fields methods (Some children))) ->
  forall nested, P nested.
Proof.
  intros Hleaf Hnode.
  refine (fix induction (nested : AnyNestedObject) : P nested :=
            match nested with
            | NestedObject values fields methods None => Hleaf values fields methods
            | NestedObject values fields methods (Some children) =>
                Hnode values fields methods children
                  ((fix all (cs : list (string * AnyNestedObject))
                      : Forall (fun child => P child.2) cs :=
                      match cs with
                      | [] => List.Forall_nil _
                      | c :: cs' => List.Forall_cons _ c cs' (induction c.2) (all cs')
                      end) children)
            end).
Qed.

(** What a traversal defers is one liveness-check field per service it
    reaches; nothing it registers at once is one. *)
Lemma visit_deferred (nested : AnyNestedObject) :
  forall name currentPath v,
    visit config grpcObject nested name currentPath = Normal v ->
    deferred v = map (ping_of config) (services nested name currentPath) /\
    List.filter is_ping (immediate v) = [].
Proof.
  induction nested as [values fields methods | values fields methods children IH]
    using AnyNestedObject_induction; intros name currentPath v.
  - destruct values, fields, methods; simpl; try (intros [= <-]; by split).
    destruct (grpcObject _); [|discriminate]. intros [= <-]. simpl.
    split; [reflexivity | apply filter_is_ping_methods].
  - destruct values, fields, methods; simpl; try (intros [= <-]; by split).
    + destruct (grpcObject _); [|discriminate]. intros [= <-]. simpl.
      split; [reflexivity | apply filter_is_ping_methods].
    + revert v. induction IH as [|[key child] children Hchild _ IHchildren]; intros v.
      * intros [= <-]. by split.
      * destruct (visit config grpcObject child key _) as [vchild|] eqn:Hvisit;
          [|discriminate].
        match goal with
        | |- context [?f children] => destruct (f children) as [vrest|] eqn:Hrest
        end; [|discriminate].
        intros [= <-]. simpl.
        destruct (Hchild _ _ _ Hvisit) as [-> Hnone].
        destruct (IHchildren _ eq_refl) as [-> Hnone'].
        rewrite map_app, List.filter_app, Hnone, Hnone'. by split.
Qed.

End Traversal.

(** ** The schema after the traversal *)

Section MeshSource.

Context `{CaseLibrary}.

Lemma register_pings (config : Config) (found : list (string * string))
    (sc : SchemaComposer) (service : string * string) :
  In service found ->
  sc_Query (register_all (map (ping_of config) found) sc)
    !! rootPingFieldName config service.1 service.2 = Some pingField.
Proof.
  induction found as [|last found IH] using rev_ind; [intros []|].
  rewrite map_app. cbn [map]. rewrite register_all_snoc.
  cbn [ping_of register sc_Query].
  intros [Hin | [-> | []]]%in_app_or.
  - rewrite lookup_insert. case_decide; [reflexivity | by apply IH].
  - apply lookup_insert_eq.
Qed.

(** Two liveness-check fields can be registered in either order. *)
Lemma register_ping_swap (config : Config) (a b : string * string) (sc : SchemaComposer) :
  register (ping_of config a) (register (ping_of config b) sc)
  = register (ping_of config b) (register (ping_of config a) sc).
Proof.
  unfold ping_of. cbn [register sc_types sc_Query sc_Mutation sc_Subscription].
  f_equal.
  destruct (decide (rootPingFieldName config a.1 a.2 = rootPingFieldName config b.1 b.2))
    as [-> | Hne]; [reflexivity | by apply insert_insert_ne].
Qed.

(** X19: the liveness-check fields of the services can be registered in
    any order: the composer ends in the same state, also when two services
    get the same field name. *)
Lemma register_pings_permutation (config : Config) (found found' : list (string * string)) :
  Permutation found found' ->
  forall sc, register_all (map (ping_of config) found) sc
             = register_all (map (ping_of config) found') sc.
Proof.
  induction 1 as [|a found found' _ IH|a b found|found found' found'' _ IH _ IH'];
    intros sc; cbn [map register_all foldl].
  - reflexivity.
  - apply IH.
  - by rewrite register_ping_swap.
  - by rewrite IH.
Qed.

(** X18: every liveness-check field is in the schema that is built, under
    the Query root and the qualified name of its service: the fields are
    registered after the [await] of their visit, hence after every method
    field of every service, and no method field overwrites them. *)
Lemma getMeshSource_pings (root_load : LoadCall -> Completion Loaded)
    (config : Config) (sc : SchemaComposer) :
  getMeshSource root_load (Some config) = Normal sc ->
  exists call loaded,
    load_call (with_requestTimeout config) = Normal call /\
    root_load call = Normal loaded /\
    forall service,
      In service (services (rootNested loaded) "" "") ->
      sc_Query sc !! rootPingFieldName config service.1 service.2 = Some pingField.
Proof.
  unfold getMeshSource.
  destruct (load_call _) as [call|] eqn:Hcall; [|discriminate].
  destruct (root_load call) as [loaded|] eqn:Hload; [|discriminate].
  destruct (visit _ _ _ _ _) as [v|] eqn:Hvisit; [|discriminate].
  intros [= <-]. exists call, loaded.
  split; [reflexivity|]. split; [exact Hload|].
  intros service Hin.
  apply visit_deferred in Hvisit as [-> _].
  rewrite register_all_app.
  apply (register_pings (with_requestTimeout config)), Hin.
Qed.

(** C10: when [protoFilePath] is an object with a non-empty [file] and no
    [load], [getMeshSource] fails on reading [includeDirs] of the missing
    options, whatever the loader would do: nothing is loaded or visited. *)
Theorem C10_missing_load (root_load : LoadCall -> Completion Loaded)
    (config : Config) (file : string) :
  protoFilePath config = PathObject (Some file) None ->
  file <> "" ->
  load_call (with_requestTimeout config) = Throw (TypeError "options.includeDirs") /\
  getMeshSource root_load (Some config) = Throw (TypeError "options.includeDirs").
Proof.
  intros Hpath Hfile%String.eqb_neq.
  assert (Hcall : load_call (with_requestTimeout config)
                  = Throw (TypeError "options.includeDirs")).
  { unfold load_call. cbn [protoFilePath with_requestTimeout].
    by rewrite Hpath, Hfile. }
  split; [exact Hcall|].
  unfold getMeshSource. by rewrite Hcall.
Qed.

End MeshSource.

Lemma C10_missing_load_witness :
  protoFilePath Acme.config_without_load = PathObject (Some "greeter.proto") None /\
  "greeter.proto" <> "" /\
  getMeshSource (H := change_case) Acme.root_load (Some Acme.config_without_load)
  = Throw (TypeError "options.includeDirs").
Proof.
  assert (Hfile : "greeter.proto" <> "") by discriminate.
  split; [reflexivity|]. split; [exact Hfile|].
  exact (proj2 (C10_missing_load (H := change_case) Acme.root_load
                  Acme.config_without_load "greeter.proto" eq_refl Hfile)).
Defined.

Lemma C10_counterexample :
  load_call (with_requestTimeout Acme.config_empty_file)
  = Normal {| load_fileName := PathObject (Some "") None;
              load_options := {| includeDirs := None |};
              load_includePaths := None |} /\
  exists sc,
    getMeshSource (H := change_case) Acme.root_load (Some Acme.config_empty_file)
    = Normal sc.
Proof. split; [reflexivity|]. eexists. reflexivity. Qed.

(** ** Cancelling a subscription *)

Module StreamProperties.

Import Stream.

Lemma run_snoc (s : Sequence) (events : list Event) (e : Event) :
  run s (events ++ [e]) = clientMethod_step (run s events) e.
Proof. unfold run. by rewrite foldl_app. Qed.

Lemma run_app (s : Sequence) (events events' : list Event) :
  run s (events ++ events') = run (run s events) events'.
Proof. unfold run. by rewrite foldl_app. Qed.

Lemma cancelled_forever (s : Sequence) (events : list Event) :
  phase s = Cancelled -> run s events = s.
Proof.
  intros Hs. induction events as [|e events IH] using rev_ind; [reflexivity|].
  rewrite run_snoc, IH. unfold clientMethod_step, withCancel. by rewrite Hs.
Qed.

(** [cancel] has been called once on a cancelled stream and never on another. *)
Lemma cancel_calls_run (events : list Event) :
  cancel_calls (run clientMethod events)
  = match phase (run clientMethod events) with Cancelled => 1 | _ => 0 end.
Proof.
  induction events as [|e events IH] using rev_ind; [reflexivity|].
  rewrite run_snoc. unfold clientMethod_step, withCancel.
  destruct (phase (run clientMethod events)) eqn:Hphase, e; simpl;
    rewrite ?Hphase; try exact IH.
  by rewrite IH.
Qed.

(** C9: when a subscription that is still streaming is cancelled, [cancel]
    is called on the response stream, once over the whole life of the
    subscription, whatever comes before and after; and nothing is
    delivered after the cancellation. *)
Theorem C9_cancel_once (before after : list Event) :
  phase (run clientMethod before) = Streaming ->
  let cancelled := run clientMethod (before ++ [Cancel]) in
  let finally := run clientMethod (before ++ Cancel :: after) in
  cancel_calls (run clientMethod before) = 0 /\
  cancel_calls cancelled = 1 /\
  cancel_calls finally = 1 /\
  delivered finally = delivered (run clientMethod before).
Proof.
  intros Hphase cancelled finally.
  assert (Hzero : cancel_calls (run clientMethod before) = 0)
    by (by rewrite cancel_calls_run, Hphase).
  assert (Hcancelled : phase cancelled = Cancelled).
  { unfold cancelled. rewrite run_snoc. unfold clientMethod_step, withCancel.
    by rewrite Hphase. }
  assert (Hfinally : finally = cancelled).
  { unfold finally. change (Cancel :: after) with ([Cancel] ++ after).
    rewrite app_assoc, run_app. by apply cancelled_forever. }
  rewrite Hfinally. split; [exact Hzero|].
  unfold cancelled. rewrite run_snoc. unfold clientMethod_step, withCancel.
  rewrite Hphase. simpl. by rewrite Hzero.
Qed.

End StreamProperties.

Lemma C9_cancel_once_witness :
  Stream.phase (Stream.run Stream.clientMethod [Stream.Message (DataString "a")])
  = Stream.Streaming /\
  Stream.cancel_calls
    (Stream.run Stream.clientMethod
       ([Stream.Message (DataString "a")]
        ++ Stream.Cancel :: [Stream.Message (DataString "b"); Stream.Cancel])) = 1 /\
  Stream.delivered
    (Stream.run Stream.clientMethod
       ([Stream.Message (DataString "a")]
        ++ Stream.Cancel :: [Stream.Message (DataString "b"); Stream.Cancel]))
  = [DataString "a"].
Proof.
  split; [reflexivity|].
  exact (proj2 (proj2 (StreamProperties.C9_cancel_once
                         [Stream.Message (DataString "a")]
                         [Stream.Message (DataString "b"); Stream.Cancel] eq_refl))).
Defined.

(** * Further properties *)

(** ** Include directories *)

Section IncludePaths.

Variable platform : Platform.
Variable originalResolvePath : ResolvePath.

Lemma include_lookup_none (includePaths : list string) (target : string) :
  include_lookup platform includePaths target = None <->
  Forall (fun directory => accessSync platform (path_join platform directory target) = false)
         includePaths.
Proof.
  induction includePaths as [|directory rest IH]; simpl.
  - split; [constructor | reflexivity].
  - destruct (accessSync platform (path_join platform directory target)) eqn:Hread.
    + split; [discriminate|]. intros Hall. inversion Hall; congruence.
    + rewrite IH. split; [by constructor | intros Hall; by inversion Hall].
Qed.

Lemma include_lookup_some (includePaths : list string) (target fullPath : string) :
  include_lookup platform includePaths target = Some fullPath <->
  exists before directory after,
    includePaths = before ++ directory :: after /\
    Forall (fun d => accessSync platform (path_join platform d target) = false) before /\
    accessSync platform (path_join platform directory target) = true /\
    fullPath = path_join platform directory target.
Proof.
  induction includePaths as [|first rest IH]; simpl.
  - split; [discriminate|]. intros (before & d & after & Heq & _).
    by destruct before.
  - destruct (accessSync platform (path_join platform first target)) eqn:Hread.
    + split.
      * intros [= <-]. exists [], first, rest. repeat split; [constructor | exact Hread].
      * intros ([|b before] & d & after & [= -> ->] & Hbefore & Hd & ->);
          [reflexivity|]. inversion Hbefore; congruence.
    + rewrite IH. split.
      * intros (before & d & after & -> & Hbefore & Hd & ->).
        exists (first :: before), d, after. repeat split; [by constructor | exact Hd].
      * intros ([|b before] & d & after & [= -> ->] & Hbefore & Hd & ->);
          [congruence|]. exists before, d, after. inversion Hbefore. by repeat split.
Qed.

(** X1: a relative target is resolved in the first include directory, in the
    order given, where the joined path can be read; directories after it
    and the loader's own resolution are not consulted, and nothing is
    warned. *)
Theorem include_first_readable (before after : list string)
    (directory origin target : string) :
  isAbsolute platform target = false ->
  Forall (fun d => accessSync platform (path_join platform d target) = false) before ->
  accessSync platform (path_join platform directory target) = true ->
  addIncludePathResolver platform originalResolvePath (before ++ directory :: after)
    origin target
  = (Some (path_join platform directory target), []).
Proof.
  intros Habs Hbefore Hread. unfold addIncludePathResolver. rewrite Habs.
  replace (include_lookup platform (before ++ directory :: after) target)
    with (Some (path_join platform directory target)); [reflexivity|].
  symmetry. apply include_lookup_some. by exists before, directory, after.
Qed.

(** X2: when no include directory holds a readable candidate (in
    particular when the list is empty), a relative target gets the answer
    of the resolution that was installed before, and a warning naming the
    target and the directories is added exactly when that answer is
    [null]. *)
Theorem include_fallback (includePaths : list string) (origin target : string) :
  isAbsolute platform target = false ->
  Forall (fun d => accessSync platform (path_join platform d target) = false)
         includePaths ->
  addIncludePathResolver platform originalResolvePath includePaths origin target
  = match originalResolvePath origin target with
    | (Some path, warnings) => (Some path, warnings)
    | (None, warnings) =>
        (None, warnings ++ [target +:+ " not found in any of the include paths "
                                   +:+ join "," includePaths])
    end.
Proof.
  intros Habs Hnone%include_lookup_none. unfold addIncludePathResolver.
  rewrite Habs, Hnone. by destruct (originalResolvePath origin target) as [[path|] warnings].
Qed.

(** X3: whatever path the resolver returns is the absolute target itself,
    or a readable file in one of the include directories, or the answer of
    the previous resolution; an absolute target is returned as it is
    without any file being looked at. *)
Theorem include_resolution_sound (includePaths : list string)
    (origin target path : string) (warnings : list string) :
  addIncludePathResolver platform originalResolvePath includePaths origin target
  = (Some path, warnings) ->
  (isAbsolute platform target = true /\ path = target /\ warnings = []) \/
  (isAbsolute platform target = false /\ warnings = [] /\
   exists directory, In directory includePaths /\
     path = path_join platform directory target /\ accessSync platform path = true) \/
  (isAbsolute platform target = false /\
   originalResolvePath origin target = (Some path, warnings) /\
   Forall (fun d => accessSync platform (path_join platform d target) = false)
          includePaths).
Proof.
  unfold addIncludePathResolver.
  destruct (isAbsolute platform target) eqn:Habs.
  - intros [= <- <-]. by left.
  - destruct (include_lookup platform includePaths target) as [fullPath|] eqn:Hlookup.
    + intros [= <- <-]. right; left.
      apply include_lookup_some in Hlookup
        as (before & directory & after & -> & _ & Hread & ->).
      repeat split. exists directory. repeat split; [|exact Hread].
      apply in_or_app. right. by left.
    + apply include_lookup_none in Hlookup.
      destruct (originalResolvePath origin target) as [[found|] w]; intros [= <- <-].
      right; right. by repeat split.
Qed.

End IncludePaths.

Lemma include_first_readable_witness :
  isAbsolute Includes.platform "google/type/date.proto" = false /\
  Forall (fun d => accessSync Includes.platform
                     (path_join Includes.platform d "google/type/date.proto") = false)
         ["protos"] /\
  accessSync Includes.platform
    (path_join Includes.platform "vendor" "google/type/date.proto") = true /\
  addIncludePathResolver Includes.platform Includes.originalResolvePath
    (["protos"] ++ "vendor" :: ["third_party"]) "service.proto" "google/type/date.proto"
  = (Some "vendor/google/type/date.proto", []).
Proof.
  assert (Hbefore : Forall (fun d => accessSync Includes.platform
                              (path_join Includes.platform d "google/type/date.proto")
                            = false) ["protos"])
    by (constructor; [reflexivity | constructor]).
  split; [reflexivity|]. split; [exact Hbefore|]. split; [reflexivity|].
  exact (include_first_readable Includes.platform Includes.originalResolvePath
           ["protos"] ["third_party"] "vendor" "service.proto" "google/type/date.proto"
           eq_refl Hbefore eq_refl).
Defined.

Lemma include_fallback_witness :
  isAbsolute Includes.platform "missing.proto" = false /\
  Forall (fun d => accessSync Includes.platform
                     (path_join Includes.platform d "missing.proto") = false)
         Includes.includePaths /\
  addIncludePathResolver Includes.platform Includes.originalResolvePath
    Includes.includePaths "service.proto" "missing.proto"
  = (None, ["missing.proto not found in any of the include paths protos,vendor,third_party"]).
Proof.
  assert (Hall : Forall (fun d => accessSync Includes.platform
                           (path_join Includes.platform d "missing.proto") = false)
                        Includes.includePaths)
    by (repeat constructor).
  split; [reflexivity|]. split; [exact Hall|].
  exact (include_fallback Includes.platform Includes.originalResolvePath
           Includes.includePaths "service.proto" "missing.proto" eq_refl Hall).
Defined.

Lemma include_resolution_sound_witness :
  addIncludePathResolver Includes.platform Includes.originalResolvePath
    Includes.includePaths "service.proto" "/etc/protos/a.proto"
  = (Some "/etc/protos/a.proto", []) /\
  ((isAbsolute Includes.platform "/etc/protos/a.proto" = true /\
    "/etc/protos/a.proto" = "/etc/protos/a.proto" /\ @nil string = []) \/
   (isAbsolute Includes.platform "/etc/protos/a.proto" = false /\ @nil string = [] /\
    exists directory, In directory Includes.includePaths /\
      "/etc/protos/a.proto" = path_join Includes.platform directory "/etc/protos/a.proto" /\
      accessSync Includes.platform "/etc/protos/a.proto" = true) \/
   (isAbsolute Includes.platform "/etc/protos/a.proto" = false /\
    Includes.originalResolvePath "service.proto" "/etc/protos/a.proto"
    = (Some "/etc/protos/a.proto", []) /\
    Forall (fun d => accessSync Includes.platform
                       (path_join Includes.platform d "/etc/protos/a.proto") = false)
           Includes.includePaths)).
Proof.
  split; [reflexivity|].
  exact (include_resolution_sound Includes.platform Includes.originalResolvePath
           Includes.includePaths "service.proto" "/etc/protos/a.proto"
           "/etc/protos/a.proto" [] eq_refl).
Defined.

(** ** The arguments of the loader *)

(** X4: the configuration makes [getMeshSource] fail before loading in two
    cases only: an object [protoFilePath] with a non-empty [file] and no
    [load] (the read of [includeDirs] fails), and one whose [load] has an
    [includeDirs] that is a non-empty value but not an array (the handler's
    own error). *)
Theorem load_call_throws (config : Config) (e : JsError) :
  load_call config = Throw e <->
  (exists file,
     protoFilePath config = PathObject (Some file) None /\ file <> "" /\
     e = TypeError "options.includeDirs") \/
  (exists file options s,
     protoFilePath config = PathObject (Some file) (Some options) /\ file <> "" /\
     includeDirs options = Some (DirsString s) /\ s <> "" /\
     e = Error "The includeDirs option must be an array").
Proof.
  unfold load_call. split.
  - destruct (protoFilePath config) as [path | [file|] [options|]]; try discriminate;
      destruct (String.eqb_spec file "") as [-> | Hfile]; try discriminate.
    + destruct (includeDirs options) as [[dirs | s]|] eqn:Hdirs; try discriminate.
      destruct (String.eqb_spec s "") as [-> | Hs]; [discriminate|].
      intros [= <-]. right. by exists file, options, s.
    + intros [= <-]. left. by exists file.
  - intros [(file & -> & Hfile%String.eqb_neq & ->)
           | (file & options & s & -> & Hfile%String.eqb_neq & Hdirs
              & Hs%String.eqb_neq & ->)].
    + by rewrite Hfile.
    + by rewrite Hfile, Hdirs, Hs.
Qed.

(** X5: the include-path resolver is installed exactly when [protoFilePath]
    is an object with a non-empty [file] whose [load.includeDirs] is an
    array, an empty array included; the directories it gets are that
    array. *)
Theorem load_call_includePaths (config : Config) (dirs : list string) :
  (exists call, load_call config = Normal call /\ load_includePaths call = Some dirs) <->
  (exists file options,
     protoFilePath config = PathObject (Some file) (Some options) /\ file <> "" /\
     includeDirs options = Some (DirsArray dirs)).
Proof.
  unfold load_call. split.
  - intros (call & Hcall & Hpaths). revert Hcall.
    destruct (protoFilePath config) as [path | [file|] [options|]];
      try (intros [= <-]; discriminate);
      destruct (String.eqb_spec file "") as [-> | Hfile];
      try (intros [= <-]; discriminate); try discriminate.
    destruct (includeDirs options) as [[dirs' | s]|] eqn:Hdirs.
    + intros [= <-]. injection Hpaths as ->. by exists file, options.
    + destruct (String.eqb s ""); [intros [= <-]|]; discriminate.
    + intros [= <-]. discriminate.
  - intros (file & options & -> & Hfile%String.eqb_neq & Hdirs).
    rewrite Hfile, Hdirs. eexists. split; reflexivity.
Qed.

(** X6: what the loader is called with.  An object [protoFilePath] with a
    non-empty [file] gives that file name and its [load] as options; any
    other [protoFilePath] (a string, or an object whose [file] is missing
    or empty) is handed over as it is, with empty options and without
    resolver, its [load] being ignored. *)
Theorem load_call_arguments (config : Config) (call : LoadCall) :
  load_call config = Normal call ->
  (exists file options,
     protoFilePath config = PathObject (Some file) (Some options) /\ file <> "" /\
     load_fileName call = PathString file /\ load_options call = options) \/
  ((forall file load, protoFilePath config = PathObject (Some file) load -> file = "") /\
   load_fileName call = protoFilePath config /\
   load_options call = {| includeDirs := None |} /\
   load_includePaths call = None).
Proof.
  unfold load_call.
  destruct (protoFilePath config) as [path | [file|] load] eqn:Hpath.
  - intros [= <-]. right. by repeat split.
  - destruct (String.eqb_spec file "") as [-> | Hfile].
    + intros [= <-]. right. repeat split. by intros file load' [= <- _].
    + destruct load as [options|]; [|discriminate].
      intros Hcall. left. exists file, options. split; [reflexivity|]. split; [exact Hfile|].
      destruct (includeDirs options) as [[dirs | s]|];
        [| destruct (String.eqb s ""); [|discriminate] |];
        injection Hcall as <-; by split.
  - intros [= <-]. right. by repeat split.
Qed.

Lemma load_call_arguments_witness :
  load_call Acme.config
  = Normal {| load_fileName := PathString "greeter.proto";
              load_options := {| includeDirs := None |};
              load_includePaths := None |} /\
  load_fileName {| load_fileName := PathString "greeter.proto";
                   load_options := {| includeDirs := None |};
                   load_includePaths := None |} = protoFilePath Acme.config.
Proof.
  split; [reflexivity|].
  destruct (load_call_arguments Acme.config _ eq_refl)
    as [(file & options & Hpath & _) | (_ & Hname & _)]; [discriminate | exact Hname].
Defined.

(** X7: after the first statement of [getMeshSource] the request timeout is
    set and is not zero: a timeout that is missing or zero becomes 200000,
    any other is kept, and nothing else of the configuration changes;
    doing it twice changes nothing more. *)
Theorem requestTimeout_default (config : Config) :
  (exists t, requestTimeout (with_requestTimeout config) = Some t /\ t <> 0%Z /\
     (t = 200000%Z \/ requestTimeout config = Some t)) /\
  (forall t, requestTimeout config = Some t -> t <> 0%Z ->
     requestTimeout (with_requestTimeout config) = Some t) /\
  (requestTimeout config = None \/ requestTimeout config = Some 0%Z ->
     requestTimeout (with_requestTimeout config) = Some 200000%Z) /\
  packageName (with_requestTimeout config) = packageName config /\
  serviceName (with_requestTimeout config) = serviceName config /\
  endpoint (with_requestTimeout config) = endpoint config /\
  protoFilePath (with_requestTimeout config) = protoFilePath config /\
  with_requestTimeout (with_requestTimeout config) = with_requestTimeout config.
Proof.
  destruct config as [pkg svc ep pfp [t|]]; unfold with_requestTimeout; simpl.
  - destruct (Z.eqb_spec t 0) as [-> | Ht]; simpl.
    + repeat split; try reflexivity.
      * exists 200000%Z. repeat split; [discriminate | by left].
      * intros t [= <-] Hne. contradiction.
    + rewrite (proj2 (Z.eqb_neq t 0) Ht).
      repeat split; try reflexivity.
      * exists t. repeat split; [exact Ht | by right].
      * intros t' [= <-] _. reflexivity.
      * intros [Hnone | [= ->]]; [discriminate | contradiction].
  - repeat split; try reflexivity.
    + exists 200000%Z. repeat split; [discriminate | by left].
    + discriminate.
Qed.

(** ** Which traversals complete *)

Section Completion.

Context `{CaseLibrary}.
Variable config : Config.
Variable grpcObject : string -> bool.

Lemma visit_outcome (nested : AnyNestedObject) :
  forall name currentPath,
    if forallb (has_client grpcObject) (services nested name currentPath)
    then exists v, visit config grpcObject nested name currentPath = Normal v
    else visit config grpcObject nested name currentPath
         = Throw (TypeError "new ServiceClient").
Proof.
  induction nested as [values fields methods | values fields methods children IH]
    using AnyNestedObject_induction; intros name currentPath.
  - destruct values, fields, methods; simpl; eauto.
    unfold has_client; simpl. destruct (grpcObject _); simpl; eauto.
  - destruct values, fields, methods; simpl; eauto.
    + unfold has_client; simpl. destruct (grpcObject _); simpl; eauto.
    + induction IH as [|[key child] children Hchild _ IHchildren]; simpl; [eauto|].
      rewrite forallb_app.
      specialize (Hchild key (if String.eqb currentPath "" then name
                              else currentPath +:+ "." +:+ name)).
      simpl in Hchild.
      destruct (forallb (has_client grpcObject) (services child key _)); simpl.
      * destruct Hchild as [v ->].
        match goal with
        | |- context [forallb (has_client grpcObject) (?f children)] =>
            destruct (forallb (has_client grpcObject) (f children))
        end.
        -- destruct IHchildren as [vs ->]. eauto.
        -- by rewrite IHchildren.
      * by rewrite Hchild.
Qed.

(** X8: a traversal completes exactly when a client constructor is found
    for every service it reaches, under the path of the service followed
    by a dot and its name; otherwise it fails with the error of calling
    [new] on what is not a constructor, whatever else the tree holds. *)
Theorem visit_completes (nested : AnyNestedObject) (name currentPath : string) :
  ((exists v, visit config grpcObject nested name currentPath = Normal v) <->
   Forall (fun service => grpcObject (service.2 +:+ "." +:+ service.1) = true)
          (services nested name currentPath)) /\
  (visit config grpcObject nested name currentPath = Throw (TypeError "new ServiceClient") <->
   Exists (fun service => grpcObject (service.2 +:+ "." +:+ service.1) = false)
          (services nested name currentPath)) /\
  forall e, visit config grpcObject nested name currentPath = Throw e ->
            e = TypeError "new ServiceClient".
Proof.
  pose proof (visit_outcome nested name currentPath) as Hout.
  destruct (forallb (has_client grpcObject) (services nested name currentPath)) eqn:Hall.
  - destruct Hout as [v Hv]. rewrite Hv.
    pose proof (proj1 (forallb_forall _ _) Hall) as Hall'. clear Hall.
    rename Hall' into Hall.
    assert (HForall : Forall (fun service => grpcObject (service.2 +:+ "." +:+ service.1)
                                             = true) (services nested name currentPath))
      by (apply List.Forall_forall; intros s Hs; exact (Hall s Hs)).
    split; [split; eauto|]. split; [|discriminate].
    split; [discriminate|]. intros Hex%List.Exists_exists. destruct Hex as (s & Hs & Hbad).
    specialize (Hall s Hs). unfold has_client in Hall. congruence.
  - rewrite Hout. split; [|split; [|by intros e [= <-]]].
    + split; [by intros [v Hv]|]. intros HForall.
      assert (forallb (has_client grpcObject) (services nested name currentPath) = true); [|congruence].
      apply forallb_forall. intros s Hs.
      exact (proj1 (List.Forall_forall _ _) HForall s Hs).
    + split; [|reflexivity]. intros _.
      apply List.Exists_exists.
      destruct (forallb_forall (has_client grpcObject) (services nested name currentPath))
        as [_ Hback].
      destruct (List.Forall_Exists_dec
                  (fun service => grpcObject (service.2 +:+ "." +:+ service.1) = true)
                  (fun service => bool_dec _ true)
                  (services nested name currentPath)) as [Hyes | Hno].
      * rewrite Hback in Hall; [discriminate|].
        intros s Hs. exact (proj1 (List.Forall_forall _ _) Hyes s Hs).
      * apply List.Exists_exists in Hno as (s & Hs & Hbad). exists s. split; [exact Hs|].
        by destruct (grpcObject _).
Qed.

End Completion.

(** ** The path a node is visited under *)


Lemma append_assoc (a b c : string) : (a +:+ b) +:+ c = a +:+ (b +:+ c).
Proof.
  induction a as [|x a IH]; [reflexivity|].
  change (String x ((a +:+ b) +:+ c) = String x (a +:+ (b +:+ c))). by rewrite IH.
Qed.




Section Paths.

Context `{CaseLibrary}.
Variable config : Config.
Variable grpcObject : string -> bool.



End Paths.


(** ** Enums and messages *)

Lemma lookup_map {A B : Type} (f : A -> B) (l : list A) (i : nat) :
  map f l !! i = f <$> (l !! i).
Proof.
  revert i. induction l as [|x l IH]; intros [|i]; simpl; try reflexivity. apply IH.
Qed.

Section Builders.

Context `{CaseLibrary}.
Variable config : Config.
Variable grpcObject : string -> bool.

(** X10: an enum node yields one enum type and nothing else; its members
    are the keys of [values] in their order, each with its own name as
    value, and the numbers of the description play no part: two enums with
    the same keys yield the same type. *)
Theorem enum_members (values values' : list (string * Z))
    (fields : option (list (string * Field)))
    (methods : option (list (string * Method)))
    (children : option (list (string * AnyNestedObject)))
    (name currentPath : string) :
  exists members,
    visit config grpcObject (NestedObject (Some values) fields methods children)
          name currentPath
    = Normal {| immediate := [createEnumTC (qualifiedTypeName config name currentPath)
                                           members];
                deferred := [] |} /\
    map fst members = map fst values /\
    map snd members = map fst values /\
    (map fst values' = map fst values ->
     visit config grpcObject (NestedObject (Some values') fields methods children)
           name currentPath
     = visit config grpcObject (NestedObject (Some values) fields methods children)
             name currentPath).
Proof.
  eexists. split; [reflexivity|].
  split; [|split].
  - induction values as [|[key number] values IH]; simpl; [reflexivity | by rewrite IH].
  - induction values as [|[key number] values IH]; simpl; [reflexivity | by rewrite IH].
  - intros Hkeys. simpl.
    replace (map (fun '(key, _) => (key, key)) values')
      with (map (fun '(key, _) => (key, key)) values); [reflexivity|].
    revert values' Hkeys.
    induction values as [|[key number] values IH]; intros [|[key' number'] values'];
      simpl; try discriminate; [reflexivity|].
    intros [= -> Hkeys]. f_equal. by apply IH.
Qed.

(** X11: a message node yields an input type named after the output type
    with the suffix "Input" and the output type, both with the fields of
    the message in their order.  A field whose type is neither found in
    the scalar table nor an enum resolves, when the schema is built, to the
    base name of its type in the output type and to that name followed by
    "Input" in the input type, each in brackets when the field is
    repeated. *)
Theorem message_field_types (fields : list (string * Field))
    (methods : option (list (string * Method)))
    (children : option (list (string * AnyNestedObject)))
    (name currentPath : string) (sc : SchemaComposer)
    (i : nat) (fieldName : string) (field : Field) :
  fields !! i = Some (fieldName, field) ->
  has_property SCALARS (type field) = false ->
  isEnumType sc (baseTypeName config (type field)) = false ->
  let wrap := fun typeName =>
    if is_repeated (rule field) then "[" +:+ typeName +:+ "]" else typeName in
  exists inputFields outputFields inputType outputType,
    visit config grpcObject (NestedObject None (Some fields) methods children)
          name currentPath
    = Normal {| immediate :=
                  [createInputTC (qualifiedTypeName config name currentPath +:+ "Input")
                                 inputFields;
                   createObjectTC (qualifiedTypeName config name currentPath)
                                  outputFields];
                deferred := [] |} /\
    map fst inputFields = map fst fields /\
    map fst outputFields = map fst fields /\
    inputFields !! i = Some (fieldName, inputType) /\
    outputFields !! i = Some (fieldName, outputType) /\
    resolve_type config sc inputType
      = JsString (wrap (baseTypeName config (type field) +:+ "Input")) /\
    resolve_type config sc outputType
      = JsString (wrap (baseTypeName config (type field))).
Proof.
  intros Hfield Hscalar Henum wrap.
  assert (Hnames : forall isInput,
             map fst (message_fields isInput fields) = map fst fields).
  { intros isInput. unfold message_fields. rewrite map_map.
    apply map_ext. by intros [fieldName' field']. }
  do 4 eexists. split; [reflexivity|].
  split; [apply Hnames|]. split; [apply Hnames|].
  unfold message_fields. rewrite !lookup_map, Hfield. cbn [fmap option_fmap option_map].
  split; [reflexivity|]. split; [reflexivity|].
  unfold resolve_type, wrap. rewrite !getTypeName_not_scalar by done.
  rewrite Henum. simpl. by destruct (is_repeated (rule field)).
Qed.

(** X12: every method of a visited service yields a field whose type is
    the response type resolved in output context and whose only argument
    is [input], of the request type resolved in input context and with the
    empty object as default.  For a method that does not stream, the
    resolver disregards its first parameter and calls the method of that
    name on the client of the service, built for the configured endpoint,
    with [args.input]. *)
Theorem method_field_binding (methods : list (string * Method))
    (children : option (list (string * AnyNestedObject)))
    (name currentPath : string) (v : Visited) (methodName : string) (method : Method) :
  visit config grpcObject (NestedObject None None (Some methods) children)
        name currentPath = Normal v ->
  In (methodName, method) methods ->
  exists root fc,
    In (addFields root (rootFieldName config name currentPath methodName) fc)
       (immediate v) /\
    field_type fc = TypeThunk (responseType method) false false /\
    field_args fc = [("input", {| arg_type := TypeThunk (requestType method) true false;
                                  arg_defaultValue := DataObject [] |})] /\
    (forall sc, resolve_type config sc (field_type fc)
                = getTypeName config sc (responseType method) false) /\
    (responseStream method = false ->
     exists resolve,
       field_resolve fc = Some resolve /\
       forall source args,
         call_resolve resolve source args
         = UnaryCall {| client_path := currentPath +:+ "." +:+ name;
                        client_endpoint := endpoint config |}
                     methodName (args_input args)).
Proof.
  intros Hvisit Hin.
  apply visit_service in Hvisit as (_ & Himm & _).
  assert (Hreg : In (visit_method config
                       {| client_path := currentPath +:+ "." +:+ name;
                          client_endpoint := endpoint config |}
                       name currentPath (methodName, method)) (immediate v)).
  { rewrite Himm. apply in_map_iff. by exists (methodName, method). }
  unfold visit_method in Hreg.
  destruct (responseStream method) eqn:Hstream.
  - do 2 eexists. split; [exact Hreg|]. repeat split. discriminate.
  - do 2 eexists. split; [exact Hreg|]. repeat split.
    intros _. eexists. split; reflexivity.
Qed.

End Builders.

Lemma message_field_types_witness :
  [("topics", {| type := "Topic"; rule := Some "repeated" |})] !! 0
  = Some ("topics", {| type := "Topic"; rule := Some "repeated" |}) /\
  has_property SCALARS "Topic" = false /\
  isEnumType new_SchemaComposer (baseTypeName (H := change_case) Acme.config "Topic") = false /\
  exists inputType outputType,
    resolve_type (H := change_case) Acme.config new_SchemaComposer inputType
    = JsString "[TopicInput]" /\
    resolve_type (H := change_case) Acme.config new_SchemaComposer outputType
    = JsString "[Topic]".
Proof.
  split; [reflexivity|]. split; [reflexivity|]. split; [reflexivity|].
  destruct (message_field_types (H := change_case) Acme.config Acme.grpcObject
              [("topics", {| type := "Topic"; rule := Some "repeated" |})] None None
              "WatchRequest" "com.acme" new_SchemaComposer 0 "topics"
              {| type := "Topic"; rule := Some "repeated" |} eq_refl eq_refl eq_refl)
    as (inputFields & outputFields & inputType & outputType & _ & _ & _ & _ & _ & Hin & Hout).
  exists inputType, outputType. split; [exact Hin | exact Hout].
Defined.

Lemma method_field_binding_witness :
  visit (H := change_case) Acme.config Acme.grpcObject Acme.Greeter "Greeter" "com.acme"
  = Normal {| immediate :=
                map (visit_method (H := change_case) Acme.config Acme.Greeter_client
                       "Greeter" "com.acme") Acme.Greeter_methods;
              deferred := [addFields Query "ping" pingField] |} /\
  In ("GetStatus", Acme.GetStatus) Acme.Greeter_methods /\
  exists root fc,
    In (addFields root "GetStatus" fc)
       (map (visit_method (H := change_case) Acme.config Acme.Greeter_client
               "Greeter" "com.acme") Acme.Greeter_methods) /\
    field_type fc = TypeThunk "StatusReply" false false.
Proof.
  assert (Hin : In ("GetStatus", Acme.GetStatus) Acme.Greeter_methods)
    by (right; left; reflexivity).
  split; [reflexivity|]. split; [exact Hin|].
  destruct (method_field_binding (H := change_case) Acme.config Acme.grpcObject
              Acme.Greeter_methods None "Greeter" "com.acme" _ "GetStatus" Acme.GetStatus
              eq_refl Hin) as (root & fc & Hreg & Htype & _).
  exists root, fc. split; [exact Hreg | exact Htype].
Defined.

(** ** References and registered names *)

Lemma join_split_dots (s : string) :
  join "_" (split "." s) = dots_to_underscores s.
Proof.
  induction s as [|c s IH]; [reflexivity|].
  cbn [split dots_to_underscores]. rewrite <- IH.
  destruct (Ascii.eqb c ".") eqn:Hc.
  - destruct (split "." s) as [|w ws] eqn:Hsplit; [by destruct s; simpl in Hsplit;
      try destruct (Ascii.eqb _ _); try destruct (split "." _)|].
    reflexivity.
  - destruct (split "." s) as [|w ws]; [reflexivity|].
    by destruct ws.
Qed.

Lemma dots_to_underscores_append (a b : string) :
  dots_to_underscores (a +:+ b) = dots_to_underscores a +:+ dots_to_underscores b.
Proof.
  induction a as [|c a IH]; [reflexivity|].
  change (String c a +:+ b) with (String c (a +:+ b)).
  cbn [dots_to_underscores]. rewrite IH. reflexivity.
Qed.

Lemma dots_to_underscores_none (s : string) :
  includes s "." = false -> dots_to_underscores s = s.
Proof.
  induction s as [|c s IH]; [reflexivity|].
  cbn [includes startsWith dots_to_underscores].
  rewrite startsWith_empty, andb_true_r.
  intros [Hc Hs]%orb_false_iff. rewrite (Ascii.eqb_sym c "."), Hc. f_equal. by apply IH.
Qed.

Lemma startsWith_append (p rest : string) : startsWith (p +:+ rest) p = true.
Proof.
  induction p as [|c p IH]; [apply startsWith_empty|].
  change (String c p +:+ rest) with (String c (p +:+ rest)).
  cbn [startsWith]. by rewrite Ascii.eqb_refl, IH.
Qed.

Lemma drop_chars_append (p rest : string) :
  drop_chars (String.length p) (p +:+ rest) = rest.
Proof.
  induction p as [|c p IH]; [by destruct rest|].
  change (String c p +:+ rest) with (String c (p +:+ rest)). exact IH.
Qed.

Lemma startsWith_includes_suffix (a b s : string) :
  startsWith s (a +:+ b) = true -> includes s b = true.
Proof.
  revert s. induction a as [|c a IH]; intros s.
  - change ("" +:+ b) with b. intros Hs. destruct s; cbn [includes]; by rewrite Hs.
  - change (String c a +:+ b) with (String c (a +:+ b)).
    destruct s as [|x s]; cbn [startsWith]; [discriminate|].
    intros [_ Hs]%andb_true_iff. cbn [includes]. rewrite (IH _ Hs). apply orb_true_r.
Qed.

Lemma includes_suffix (a b s : string) :
  includes s (a +:+ b) = true -> includes s b = true.
Proof.
  induction s as [|x s IH]; cbn [includes].
  - rewrite orb_false_r. intros Hs. by apply (startsWith_includes_suffix a b "") in Hs.
  - intros [Hs | Hs]%orb_true_iff.
    + by apply (startsWith_includes_suffix a b (String x s)) in Hs.
    + rewrite (IH Hs). apply orb_true_r.
Qed.

Lemma no_dot_no_prefix (prefix s : string) :
  includes s "." = false -> includes s (prefix +:+ ".") = false.
Proof.
  intros Hdot. destruct (includes s (prefix +:+ ".")) eqn:Hincl; [|reflexivity].
  apply includes_suffix in Hincl. congruence.
Qed.

Lemma inherited_In (key : string) :
  inherited key = true <-> In key Object_prototype.
Proof.
  unfold inherited. rewrite existsb_exists. split.
  - intros (k & Hk & Heq%String.eqb_eq). by subst.
  - intros Hin. exists key. split; [exact Hin | apply String.eqb_refl].
Qed.

Lemma own_not_inherited (key name : string) :
  own_property SCALARS key = Some name -> inherited key = false.
Proof.
  unfold SCALARS. cbn [own_property].
  repeat match goal with
         | |- (if String.eqb ?k key then _ else _) = _ -> _ =>
             destruct (String.eqb_spec k key) as [<- | _]; [reflexivity|]
         end.
  discriminate.
Qed.

Section References.

Context `{CaseLibrary}.
Variable config : Config.

(** X13: the resolver answers with a name for every reference but the
    twelve property names every object inherits; for those it answers, in
    both contexts, with the inherited member, and it never answers
    [undefined]. *)
Theorem getTypeName_name_or_member (sc : SchemaComposer) (typePath : string)
    (isInput : bool) :
  getTypeName config sc typePath isInput <> JsUndefined /\
  ((exists name, getTypeName config sc typePath isInput = JsString name) <->
   ~ In typePath Object_prototype) /\
  (In typePath Object_prototype ->
   getTypeName config sc typePath isInput = JsInherited typePath).
Proof.
  assert (Hiff : ~ In typePath Object_prototype <-> inherited typePath = false).
  { rewrite <- inherited_In. by destruct (inherited typePath). }
  unfold getTypeName, has_property, get_property.
  destruct (own_property SCALARS typePath) as [name|] eqn:Hown.
  - apply own_not_inherited in Hown. apply Hiff in Hown.
    split; [discriminate|]. split; [|contradiction].
    split; [done | eauto].
  - destruct (inherited typePath) eqn:Hinh.
    + apply inherited_In in Hinh.
      split; [discriminate|]. split; [|done].
      split; [by intros [name [=]] | contradiction].
    + assert (Hnot : ~ In typePath Object_prototype) by by apply Hiff.
      split; [by destruct (isInput && _)|]. split; [|contradiction].
      split; [done|]. intros _. destruct (isInput && _); eauto.
Qed.

(** X14: for a reference that the scalar test does not catch, the output
    name is the base name, and the input name is the base name followed by
    "Input" unless the composer holds an enum under the base name, in
    which case it is the base name too. *)
Theorem getTypeName_contexts (sc : SchemaComposer) (typePath : string) :
  has_property SCALARS typePath = false ->
  getTypeName config sc typePath false = JsString (baseTypeName config typePath) /\
  getTypeName config sc typePath true
  = JsString (if isEnumType sc (baseTypeName config typePath)
              then baseTypeName config typePath
              else baseTypeName config typePath +:+ "Input").
Proof.
  intros Hscalar. rewrite !getTypeName_not_scalar by done.
  split; [reflexivity|]. by destruct (isEnumType sc _).
Qed.

(** X15: a reference qualified with the root package and the same
    reference without it have the same base name, the upper camel case of
    the rest with its dots replaced by underscores, provided the rest does
    not itself contain the root package followed by a dot. *)
Theorem baseTypeName_qualified (rest : string) :
  includes rest (packageName config +:+ ".") = false ->
  baseTypeName config (packageName config +:+ "." +:+ rest)
  = pascalCase (dots_to_underscores rest) /\
  baseTypeName config rest = pascalCase (dots_to_underscores rest).
Proof.
  intros Hrest. unfold baseTypeName. rewrite !join_split_dots.
  rewrite (replace_absent rest) by done. split; [|reflexivity].
  rewrite <- append_assoc, replace_leading by apply startsWith_append.
  by rewrite drop_chars_append.
Qed.

(** X16: a message of the root package whose name has no dot, is not
    caught by the scalar test and is left unchanged by [pascalCase] is
    found again by a reference to its name: the reference resolves, in
    output and in input context, to the names of the two types the visitor
    registers for it. *)
Theorem root_message_reference (grpcObject : string -> bool)
    (fields : list (string * Field)) (methods : option (list (string * Method)))
    (children : option (list (string * AnyNestedObject)))
    (name : string) (sc : SchemaComposer) :
  includes name "." = false ->
  has_property SCALARS name = false ->
  pascalCase name = name ->
  isEnumType sc name = false ->
  exists inputName outputName inputFields outputFields,
    visit config grpcObject (NestedObject None (Some fields) methods children)
          name (packageName config)
    = Normal {| immediate := [createInputTC inputName inputFields;
                              createObjectTC outputName outputFields];
                deferred := [] |} /\
    getTypeName config sc name true = JsString inputName /\
    getTypeName config sc name false = JsString outputName.
Proof.
  intros Hdot Hscalar Hcase Henum.
  assert (Hbase : baseTypeName config name = name).
  { destruct (baseTypeName_qualified name (no_dot_no_prefix _ _ Hdot)) as [_ ->].
    by rewrite dots_to_underscores_none. }
  do 4 eexists. split.
  { simpl. rewrite qualifiedTypeName_root. reflexivity. }
  destruct (getTypeName_contexts sc name Hscalar) as [-> ->].
  by rewrite Hbase, Henum.
Qed.

(** X17: a message of another package, whose name has no dot, is found
    again by its fully qualified reference, provided the reference is not
    caught by the scalar test and does not contain the root package
    followed by a dot. *)
Theorem foreign_message_reference (grpcObject : string -> bool)
    (fields : list (string * Field)) (methods : option (list (string * Method)))
    (children : option (list (string * AnyNestedObject)))
    (name currentPath : string) (sc : SchemaComposer) :
  currentPath <> packageName config ->
  includes name "." = false ->
  includes (currentPath +:+ "." +:+ name) (packageName config +:+ ".") = false ->
  has_property SCALARS (currentPath +:+ "." +:+ name) = false ->
  isEnumType sc (baseTypeName config (currentPath +:+ "." +:+ name)) = false ->
  exists inputName outputName inputFields outputFields,
    visit config grpcObject (NestedObject None (Some fields) methods children)
          name currentPath
    = Normal {| immediate := [createInputTC inputName inputFields;
                              createObjectTC outputName outputFields];
                deferred := [] |} /\
    getTypeName config sc (currentPath +:+ "." +:+ name) true = JsString inputName /\
    getTypeName config sc (currentPath +:+ "." +:+ name) false = JsString outputName.
Proof.
  intros Hpath%String.eqb_neq Hdot Hpackage Hscalar Henum.
  assert (Hbase : baseTypeName config (currentPath +:+ "." +:+ name)
                  = qualifiedTypeName config name currentPath).
  { unfold baseTypeName, qualifiedTypeName. rewrite Hpath. simpl negb. cbv iota.
    rewrite (replace_absent _ _ _ Hpackage), !join_split_dots.
    rewrite !dots_to_underscores_append, (dots_to_underscores_none name Hdot).
    reflexivity. }
  do 4 eexists. split; [reflexivity|].
  destruct (getTypeName_contexts sc _ Hscalar) as [-> ->].
  by rewrite Henum, Hbase.
Qed.

End References.

Lemma getTypeName_contexts_witness :
  has_property SCALARS "com.acme.HelloRequest" = false /\
  getTypeName (H := change_case) Acme.config new_SchemaComposer "com.acme.HelloRequest" false
  = JsString "HelloRequest" /\
  getTypeName (H := change_case) Acme.config new_SchemaComposer "com.acme.HelloRequest" true
  = JsString "HelloRequestInput".
Proof.
  split; [reflexivity|].
  exact (getTypeName_contexts (H := change_case) Acme.config new_SchemaComposer
           "com.acme.HelloRequest" eq_refl).
Defined.

Lemma baseTypeName_qualified_witness :
  includes "v2.Thing" (packageName Acme.config +:+ ".") = false /\
  baseTypeName (H := change_case) Acme.config "com.acme.v2.Thing" = "V2Thing" /\
  baseTypeName (H := change_case) Acme.config "v2.Thing" = "V2Thing".
Proof.
  split; [reflexivity|].
  exact (baseTypeName_qualified (H := change_case) Acme.config "v2.Thing" eq_refl).
Defined.

Lemma root_message_reference_witness :
  includes "HelloRequest" "." = false /\
  has_property SCALARS "HelloRequest" = false /\
  @pascalCase change_case "HelloRequest" = "HelloRequest" /\
  isEnumType new_SchemaComposer "HelloRequest" = false /\
  exists inputName outputName,
    getTypeName (H := change_case) Acme.config new_SchemaComposer "HelloRequest" true
    = JsString inputName /\
    getTypeName (H := change_case) Acme.config new_SchemaComposer "HelloRequest" false
    = JsString outputName.
Proof.
  split; [reflexivity|]. split; [reflexivity|]. split; [reflexivity|].
  split; [reflexivity|].
  destruct (root_message_reference (H := change_case) Acme.config Acme.grpcObject
              [] None None "HelloRequest" new_SchemaComposer
              eq_refl eq_refl eq_refl eq_refl)
    as (inputName & outputName & _ & _ & _ & Hin & Hout).
  exists inputName, outputName. split; [exact Hin | exact Hout].
Defined.

Lemma foreign_message_reference_witness :
  "google.protobuf" <> packageName Acme.config /\
  includes "Timestamp" "." = false /\
  includes ("google.protobuf" +:+ "." +:+ "Timestamp") (packageName Acme.config +:+ ".")
  = false /\
  has_property SCALARS ("google.protobuf" +:+ "." +:+ "Timestamp") = false /\
  isEnumType new_SchemaComposer
    (baseTypeName (H := change_case) Acme.config ("google.protobuf" +:+ "." +:+ "Timestamp"))
  = false /\
  exists inputName outputName,
    getTypeName (H := change_case) Acme.config new_SchemaComposer
      ("google.protobuf" +:+ "." +:+ "Timestamp") true = JsString inputName /\
    getTypeName (H := change_case) Acme.config new_SchemaComposer
      ("google.protobuf" +:+ "." +:+ "Timestamp") false = JsString outputName.
Proof.
  assert (Hpath : "google.protobuf" <> packageName Acme.config) by discriminate.
  split; [exact Hpath|]. split; [reflexivity|]. split; [reflexivity|].
  split; [reflexivity|]. split; [reflexivity|].
  destruct (foreign_message_reference (H := change_case) Acme.config Acme.grpcObject
              [] None None "Timestamp" "google.protobuf" new_SchemaComposer
              Hpath eq_refl eq_refl eq_refl eq_refl)
    as (inputName & outputName & _ & _ & _ & Hin & Hout).
  exists inputName, outputName. split; [exact Hin | exact Hout].
Defined.

Lemma getMeshSource_pings_witness :
  exists sc,
    getMeshSource (H := change_case) Acme.root_load (Some Acme.config) = Normal sc /\
    sc_Query sc !! "comAcmeV2Greeter2Ping" = Some pingField.
Proof.
  eexists. split; [reflexivity|].
  destruct (getMeshSource_pings (H := change_case) Acme.root_load Acme.config _ eq_refl)
    as (call & loaded & _ & Hload & Hall).
  injection Hload as <-.
  apply (Hall ("Greeter2", "com.acme.v2")).
  right; left; reflexivity.
Defined.

Lemma register_pings_permutation_witness :
  Permutation [("Greeter", "com.acme"); ("Greeter2", "com.acme.v2")]
              [("Greeter2", "com.acme.v2"); ("Greeter", "com.acme")] /\
  register_all (map (ping_of (H := change_case) Acme.config)
                  [("Greeter", "com.acme"); ("Greeter2", "com.acme.v2")])
               new_SchemaComposer
  = register_all (map (ping_of (H := change_case) Acme.config)
                    [("Greeter2", "com.acme.v2"); ("Greeter", "com.acme")])
                 new_SchemaComposer.
Proof.
  assert (Hperm : Permutation [("Greeter", "com.acme"); ("Greeter2", "com.acme.v2")]
                              [("Greeter2", "com.acme.v2"); ("Greeter", "com.acme")])
    by apply perm_swap.
  split; [exact Hperm|].
  exact (register_pings_permutation (H := change_case) Acme.config _ _ Hperm
           new_SchemaComposer).
Defined.

(** ** Services in a traversal *)

Section ServicesReached.

Context `{CaseLibrary}.
Variable config : Config.
Variable grpcObject : string -> bool.


(** X21: a service declared outside any package is visited under the empty
    path, so its client constructor is looked up under its name preceded by
    a dot, and the traversal completes exactly when one is found there. *)
Theorem top_level_service_lookup (methods : list (string * Method))
    (children : option (list (string * AnyNestedObject))) (name : string) :
  (exists v,
     visit config grpcObject
       (NestedObject None None None
          (Some [(name, NestedObject None None (Some methods) children)])) "" ""
     = Normal v) <->
  grpcObject ("." +:+ name) = true.
Proof.
  simpl. change ("" +:+ "." +:+ name) with ("." +:+ name).
  destruct (grpcObject ("." +:+ name)); split; eauto; try discriminate.
  by intros [v Hv].
Qed.

End ServicesReached.

